(** * e-LACAK Pringsewu: housing records, backlogs and the audit log

    A shallow embedding of the server handlers
    [src/server/src/handlers/housing_records.ts],
    [src/server/src/handlers/audit.ts], the backlog handlers and the
    housing-record procedures of the tRPC router, together with the
    properties of the housing-registry specification that concern them.

    The database is a record of tables, each table a list of rows in insertion
    order with its [serial] counter.  A handler is a function from the
    database to a result and the database it leaves behind, so that a handler
    that throws still says what it wrote before throwing. *)

From Stdlib Require Import ZArith.
From stdpp Require Import base list strings sorting.

Local Open Scope Z_scope.

(** ** JavaScript values *)

(** A field declared [.nullable().optional()]: it is missing ([undefined]),
    [null], or carries a value.  A field declared [.optional()] only is an
    [option], [None] standing for [undefined]. *)
Inductive nullable_optional (A : Type) : Type :=
| undefined
| null
| value (a : A).
Arguments undefined {A}.
Arguments null {A}.
Arguments value {A} a.

(** Truthiness of the primitive values the handlers test. *)
Class Truthy (A : Type) := truthy : A → bool.

#[global] Instance truthy_number : Truthy Z := λ n, negb (n =? 0).
#[global] Instance truthy_string : Truthy string := λ s, negb (String.eqb s "").

(** [x || y] where [y] is a value or [null]. *)
Definition js_or {A} `{Truthy A} (x : nullable_optional A) (y : option A) : option A :=
  match x with
  | value a => if truthy a then Some a else y
  | _ => y
  end.

(** [x?.f()]: [undefined] unless [x] carries a value. *)
Definition optional_chain {A B} (f : A → B) (x : nullable_optional A) : option B :=
  match x with
  | value a => Some (f a)
  | _ => None
  end.

(** [x !== undefined] *)
Definition defined {A} (x : nullable_optional A) : bool :=
  match x with
  | undefined => false
  | _ => true
  end.

(** Numbers are integers here: identifiers, counts, scores and timestamps
    (milliseconds) are integers in the database, and a coordinate or an income
    is kept as the integer number of its smallest unit.  The text of a
    [numeric] column is modelled by the number it denotes, so printing and
    parsing are the two directions of one representation. *)
Definition number := Z.
Definition numeric := Z.
Definition Number_toString (n : number) : numeric := n.
Definition parseFloat (s : numeric) : number := s.

(** ** Enumerations of [db/schema.ts] *)

Inductive housing_status := RTLH | RLH.
Inductive eligibility_category := POOR | VERY_POOR | MODERATE | NOT_ELIGIBLE.
Inductive verification_status := PENDING | VERIFIED | REJECTED.
Inductive backlog_type := NO_HOUSE | UNINHABITABLE_HOUSE.
Inductive audit_action := CREATE | UPDATE | DELETE | VERIFY | LOGIN | EXPORT.

#[global] Instance housing_status_eq_dec : EqDecision housing_status.
Proof. solve_decision. Defined.
#[global] Instance eligibility_category_eq_dec : EqDecision eligibility_category.
Proof. solve_decision. Defined.
#[global] Instance verification_status_eq_dec : EqDecision verification_status.
Proof. solve_decision. Defined.
#[global] Instance backlog_type_eq_dec : EqDecision backlog_type.
Proof. solve_decision. Defined.
#[global] Instance audit_action_eq_dec : EqDecision audit_action.
Proof. solve_decision. Defined.

(** ** Rows *)

Record District := {
  d_id : Z;
  d_name : string;
  d_code : string
}.

Record Village := {
  v_id : Z;
  v_name : string;
  v_code : string;
  v_district_id : Z
}.

Record HousingRecord := {
  hr_id : Z;
  hr_head_of_household : string;
  hr_nik : string;
  hr_housing_status : housing_status;
  hr_eligibility_category : eligibility_category;
  hr_verification_status : verification_status;
  hr_district_id : Z;
  hr_village_id : Z;
  hr_latitude : option numeric;
  hr_longitude : option numeric;
  hr_address : string;
  hr_phone : option string;
  hr_family_members : Z;
  hr_monthly_income : option numeric;
  hr_house_condition_score : option Z;
  hr_notes : option string;
  hr_verified_by : option Z;
  hr_verified_at : option Z;
  hr_created_by : Z;
  hr_created_at : Z;
  hr_updated_at : Z
}.

Record Backlog := {
  bl_id : Z;
  bl_district_id : Z;
  bl_village_id : Z;
  bl_backlog_type : backlog_type;
  bl_family_count : Z;
  bl_year : Z;
  bl_month : Z;
  bl_created_by : Z;
  bl_created_at : Z;
  bl_updated_at : Z
}.

Record AuditLog := {
  al_id : Z;
  al_user_id : Z;
  al_action : audit_action;
  al_resource_type : string;
  al_resource_id : option Z;
  al_details : option string;
  al_ip_address : option string;
  al_created_at : Z
}.

(** ** The database *)

Record db := {
  districtsTable : list District;
  districts_id_seq : Z;
  villagesTable : list Village;
  villages_id_seq : Z;
  housingRecordsTable : list HousingRecord;
  housing_records_id_seq : Z;
  backlogsTable : list Backlog;
  backlogs_id_seq : Z;
  auditLogsTable : list AuditLog;
  audit_logs_id_seq : Z
}.

(** ** Handlers: errors and state *)

Inductive Error :=
| District_not_found
| Village_not_found_or_does_not_belong_to_the_specified_district
| Village_not_found
| NIK_already_exists
| Housing_record_not_found
| District_with_ID_does_not_exist (district_id : Z)
| Village_with_ID_does_not_exist_in_district (village_id district_id : Z)
| A_backlog_entry_already_exists
| Backlog_with_ID_does_not_exist (id : Z)
| Housing_record_with_ID_not_found (id : Z)
| District_with_ID_not_found (district_id : Z)
| unique_violation (constraint : string)
| UNAUTHORIZED
| BAD_REQUEST
| TypeError.

Inductive result (A : Type) : Type :=
| Ok (a : A)
| Err (e : Error).
Arguments Ok {A} a.
Arguments Err {A} e.

Definition handler (A : Type) : Type := db → result A * db.

Definition resolve {A} (a : A) : handler A := λ st, (Ok a, st).
Definition throw {A} (e : Error) : handler A := λ st, (Err e, st).
Definition await {A B} (m : handler A) (k : A → handler B) : handler B :=
  λ st, match m st with
        | (Ok a, st') => k a st'
        | (Err e, st') => (Err e, st')
        end.

Notation "'let!' x ':=' m 'in' k" := (await m (λ x, k))
  (at level 10, x name, m at level 100, k at level 200).

(** [db.select().from(table).where(P).execute()] *)
Definition select {R} (table : db → list R) (P : R → Prop) `{∀ r, Decision (P r)}
  : handler (list R) :=
  λ st, (Ok (filter P (table st)), st).

(** [rows.length === 0] and [rows.length > 0] *)
Definition is_empty {R} (rows : list R) : bool :=
  match rows with
  | [] => true
  | _ :: _ => false
  end.

(** ** Housing records: inputs *)

Record CreateHousingRecordInput := {
  cr_head_of_household : string;
  cr_nik : string;
  cr_housing_status : housing_status;
  cr_eligibility_category : eligibility_category;
  cr_district_id : Z;
  cr_village_id : Z;
  cr_latitude : nullable_optional number;
  cr_longitude : nullable_optional number;
  cr_address : string;
  cr_phone : nullable_optional string;
  cr_family_members : Z;
  cr_monthly_income : nullable_optional number;
  cr_house_condition_score : nullable_optional Z;
  cr_notes : nullable_optional string
}.

Record UpdateHousingRecordInput := {
  up_id : Z;
  up_head_of_household : option string;
  up_housing_status : option housing_status;
  up_eligibility_category : option eligibility_category;
  up_district_id : option Z;
  up_village_id : option Z;
  up_latitude : nullable_optional number;
  up_longitude : nullable_optional number;
  up_address : option string;
  up_phone : nullable_optional string;
  up_family_members : option Z;
  up_monthly_income : nullable_optional number;
  up_house_condition_score : nullable_optional Z;
  up_notes : nullable_optional string
}.

Record VerifyHousingRecordInput := {
  vf_id : Z;
  vf_verification_status : verification_status;
  vf_notes : nullable_optional string
}.

(** ** Housing records: the table *)

Definition with_housingRecordsTable (rows : list HousingRecord) (seq : Z) (st : db) : db :=
  {| districtsTable := districtsTable st;
     districts_id_seq := districts_id_seq st;
     villagesTable := villagesTable st;
     villages_id_seq := villages_id_seq st;
     housingRecordsTable := rows;
     housing_records_id_seq := seq;
     backlogsTable := backlogsTable st;
     backlogs_id_seq := backlogs_id_seq st;
     auditLogsTable := auditLogsTable st;
     audit_logs_id_seq := audit_logs_id_seq st |}.

(** [db.insert(housingRecordsTable).values(..).returning().execute()] and
    [results[0]]: the row gets the next [serial] identifier; the columns the
    handler does not give take their defaults ([PENDING], [NULL], [now()]). *)
Definition insert_housingRecord (values : Z → HousingRecord) : handler HousingRecord :=
  λ st, let record := values (housing_records_id_seq st) in
        (Ok record,
         with_housingRecordsTable (housingRecordsTable st ++ [record])
                                  (housing_records_id_seq st + 1) st).

(** The object given to [.set(..)].  A key that is missing or [undefined] is
    skipped by the query builder; [null] is written as [NULL]. *)
Record HousingRecordSet := {
  set_head_of_household : option string;
  set_housing_status : option housing_status;
  set_eligibility_category : option eligibility_category;
  set_verification_status : option verification_status;
  set_district_id : option Z;
  set_village_id : option Z;
  set_latitude : nullable_optional numeric;
  set_longitude : nullable_optional numeric;
  set_address : option string;
  set_phone : nullable_optional string;
  set_family_members : option Z;
  set_monthly_income : nullable_optional numeric;
  set_house_condition_score : nullable_optional Z;
  set_notes : nullable_optional string;
  set_verified_by : nullable_optional Z;
  set_verified_at : nullable_optional Z;
  set_updated_at : option Z
}.

Definition assign {A} (new : option A) (old : A) : A :=
  match new with
  | Some a => a
  | None => old
  end.

Definition assign_nullable {A} (new : nullable_optional A) (old : option A) : option A :=
  match new with
  | undefined => old
  | null => None
  | value a => Some a
  end.

Definition apply_set (u : HousingRecordSet) (r : HousingRecord) : HousingRecord :=
  {| hr_id := hr_id r;
     hr_head_of_household := assign (set_head_of_household u) (hr_head_of_household r);
     hr_nik := hr_nik r;
     hr_housing_status := assign (set_housing_status u) (hr_housing_status r);
     hr_eligibility_category := assign (set_eligibility_category u) (hr_eligibility_category r);
     hr_verification_status := assign (set_verification_status u) (hr_verification_status r);
     hr_district_id := assign (set_district_id u) (hr_district_id r);
     hr_village_id := assign (set_village_id u) (hr_village_id r);
     hr_latitude := assign_nullable (set_latitude u) (hr_latitude r);
     hr_longitude := assign_nullable (set_longitude u) (hr_longitude r);
     hr_address := assign (set_address u) (hr_address r);
     hr_phone := assign_nullable (set_phone u) (hr_phone r);
     hr_family_members := assign (set_family_members u) (hr_family_members r);
     hr_monthly_income := assign_nullable (set_monthly_income u) (hr_monthly_income r);
     hr_house_condition_score :=
       assign_nullable (set_house_condition_score u) (hr_house_condition_score r);
     hr_notes := assign_nullable (set_notes u) (hr_notes r);
     hr_verified_by := assign_nullable (set_verified_by u) (hr_verified_by r);
     hr_verified_at := assign_nullable (set_verified_at u) (hr_verified_at r);
     hr_created_by := hr_created_by r;
     hr_created_at := hr_created_at r;
     hr_updated_at := assign (set_updated_at u) (hr_updated_at r) |}.

(** [db.update(housingRecordsTable).set(u).where(eq(id, ..)).returning()] *)
Definition update_row (u : HousingRecordSet) (id : Z) (r : HousingRecord) : HousingRecord :=
  if decide (hr_id r = id) then apply_set u r else r.

Definition update_housingRecords (u : HousingRecordSet) (id : Z) : handler (list HousingRecord) :=
  λ st, (Ok (apply_set u <$> filter (λ r, hr_id r = id) (housingRecordsTable st)),
         with_housingRecordsTable (update_row u id <$> housingRecordsTable st)
                                  (housing_records_id_seq st) st).

(** [db.delete(housingRecordsTable).where(eq(id, ..)).execute()] *)
Definition delete_housingRecords (id : Z) : handler unit :=
  λ st, (Ok (),
         with_housingRecordsTable (filter (λ r, hr_id r ≠ id) (housingRecordsTable st))
                                  (housing_records_id_seq st) st).

(** The conversion every handler applies to the row it returns:
    [record.latitude ? parseFloat(record.latitude) : null].  The text of a
    numeric column is never the empty string, so the test only sees [null]. *)
Definition with_numbers (record : HousingRecord) : HousingRecord :=
  {| hr_id := hr_id record;
     hr_head_of_household := hr_head_of_household record;
     hr_nik := hr_nik record;
     hr_housing_status := hr_housing_status record;
     hr_eligibility_category := hr_eligibility_category record;
     hr_verification_status := hr_verification_status record;
     hr_district_id := hr_district_id record;
     hr_village_id := hr_village_id record;
     hr_latitude := parseFloat <$> hr_latitude record;
     hr_longitude := parseFloat <$> hr_longitude record;
     hr_address := hr_address record;
     hr_phone := hr_phone record;
     hr_family_members := hr_family_members record;
     hr_monthly_income := parseFloat <$> hr_monthly_income record;
     hr_house_condition_score := hr_house_condition_score record;
     hr_notes := hr_notes record;
     hr_verified_by := hr_verified_by record;
     hr_verified_at := hr_verified_at record;
     hr_created_by := hr_created_by record;
     hr_created_at := hr_created_at record;
     hr_updated_at := hr_updated_at record |}.

(** ** Housing records: the handlers of [handlers/housing_records.ts]

    A handler that reads the clock ([new Date()], or the [now()] default of a
    timestamp column) takes the reading as its argument [now]; all the
    readings of one call are the same instant. *)

#[global] Instance truthy_optional {A} `{Truthy A} : Truthy (option A) :=
  λ x, match x with
       | Some a => truthy a
       | None => false
       end.

(** An uncaught [TypeError]: a property read on [undefined]. *)
Definition first_row (results : list HousingRecord) : handler HousingRecord :=
  match results with
  | record :: _ => resolve (with_numbers record)
  | [] => throw TypeError
  end.

(** The object given to [.values(..)] by [createHousingRecord], completed with
    the identifier and the column defaults. *)
Definition housing_values (input : CreateHousingRecordInput) (createdBy now : Z) (id : Z)
  : HousingRecord :=
  {| hr_id := id;
     hr_head_of_household := cr_head_of_household input;
     hr_nik := cr_nik input;
     hr_housing_status := cr_housing_status input;
     hr_eligibility_category := cr_eligibility_category input;
     hr_verification_status := PENDING;
     hr_district_id := cr_district_id input;
     hr_village_id := cr_village_id input;
     hr_latitude := optional_chain Number_toString (cr_latitude input);
     hr_longitude := optional_chain Number_toString (cr_longitude input);
     hr_address := cr_address input;
     hr_phone := js_or (cr_phone input) None;
     hr_family_members := cr_family_members input;
     hr_monthly_income := optional_chain Number_toString (cr_monthly_income input);
     hr_house_condition_score := js_or (cr_house_condition_score input) None;
     hr_notes := js_or (cr_notes input) None;
     hr_verified_by := None;
     hr_verified_at := None;
     hr_created_by := createdBy;
     hr_created_at := now;
     hr_updated_at := now |}.

Definition createHousingRecord (input : CreateHousingRecordInput) (createdBy now : Z)
  : handler HousingRecord :=
  let! districtExists :=
    select districtsTable (λ d, d_id d = cr_district_id input) in
  if is_empty districtExists then throw District_not_found else
  let! villageExists :=
    select villagesTable (λ v, v_id v = cr_village_id input
                               ∧ v_district_id v = cr_district_id input) in
  if is_empty villageExists
  then throw Village_not_found_or_does_not_belong_to_the_specified_district else
  let! existingNik :=
    select housingRecordsTable (λ r, hr_nik r = cr_nik input) in
  if negb (is_empty existingNik) then throw NIK_already_exists else
  let! record := insert_housingRecord (housing_values input createdBy now) in
  resolve (with_numbers record).

(** [x !== undefined] for a field that is optional only. *)
Definition present {A} (x : option A) : bool :=
  match x with
  | Some _ => true
  | None => false
  end.

(** [input[field] !== undefined] for the keys of the update input. *)
Definition input_defined (input : UpdateHousingRecordInput) (field : string) : bool :=
  if String.eqb field "id" then true
  else if String.eqb field "head_of_household" then present (up_head_of_household input)
  else if String.eqb field "housing_status" then present (up_housing_status input)
  else if String.eqb field "eligibility_category"
       then present (up_eligibility_category input)
  else if String.eqb field "district_id" then present (up_district_id input)
  else if String.eqb field "village_id" then present (up_village_id input)
  else if String.eqb field "latitude" then defined (up_latitude input)
  else if String.eqb field "longitude" then defined (up_longitude input)
  else if String.eqb field "address" then present (up_address input)
  else if String.eqb field "phone" then defined (up_phone input)
  else if String.eqb field "family_members" then present (up_family_members input)
  else if String.eqb field "monthly_income" then defined (up_monthly_income input)
  else if String.eqb field "house_condition_score"
       then defined (up_house_condition_score input)
  else if String.eqb field "notes" then defined (up_notes input)
  else false.

Definition significantFields : list string :=
  ["head_of_household"; "housing_status"; "eligibility_category"; "address";
   "family_members"].

Definition hasSignificantChanges (input : UpdateHousingRecordInput) : bool :=
  existsb (input_defined input) significantFields.
Arguments hasSignificantChanges : simpl never.

(** The value stored under a key of [updateValues] by
    [if (x !== undefined) updateValues.k = e]. *)
Definition stored {A} (e : option A) : nullable_optional A :=
  match e with
  | Some a => value a
  | None => undefined
  end.

Definition updateValues (input : UpdateHousingRecordInput) (now : Z) : HousingRecordSet :=
  let reset := hasSignificantChanges input in
  {| set_updated_at := Some now;
     set_head_of_household := up_head_of_household input;
     set_housing_status := up_housing_status input;
     set_eligibility_category := up_eligibility_category input;
     set_district_id := up_district_id input;
     set_village_id := up_village_id input;
     set_latitude :=
       if defined (up_latitude input)
       then stored (optional_chain Number_toString (up_latitude input)) else undefined;
     set_longitude :=
       if defined (up_longitude input)
       then stored (optional_chain Number_toString (up_longitude input)) else undefined;
     set_address := up_address input;
     set_phone := if defined (up_phone input) then up_phone input else undefined;
     set_family_members := up_family_members input;
     set_monthly_income :=
       if defined (up_monthly_income input)
       then stored (optional_chain Number_toString (up_monthly_income input)) else undefined;
     set_house_condition_score :=
       if defined (up_house_condition_score input)
       then up_house_condition_score input else undefined;
     set_notes := if defined (up_notes input) then up_notes input else undefined;
     set_verification_status := if reset then Some PENDING else None;
     set_verified_by := if reset then null else undefined;
     set_verified_at := if reset then null else undefined |}.

(** The validation of [district_id] and [village_id] in [updateHousingRecord]. *)
Definition validate_location (input : UpdateHousingRecordInput) : handler unit :=
  if truthy (up_district_id input) && truthy (up_village_id input) then
    let! villageExists :=
      select villagesTable (λ v, Some (v_id v) = up_village_id input
                                 ∧ Some (v_district_id v) = up_district_id input) in
    if is_empty villageExists
    then throw Village_not_found_or_does_not_belong_to_the_specified_district
    else resolve ()
  else if truthy (up_district_id input) then
    let! districtExists :=
      select districtsTable (λ d, Some (d_id d) = up_district_id input) in
    if is_empty districtExists then throw District_not_found else resolve ()
  else if truthy (up_village_id input) then
    let! villageExists :=
      select villagesTable (λ v, Some (v_id v) = up_village_id input) in
    if is_empty villageExists then throw Village_not_found else resolve ()
  else resolve ().

Definition updateHousingRecord (input : UpdateHousingRecordInput) (updatedBy now : Z)
  : handler HousingRecord :=
  let! existingRecord :=
    select housingRecordsTable (λ r, hr_id r = up_id input) in
  if is_empty existingRecord then throw Housing_record_not_found else
  let! validated := validate_location input in
  let! results := update_housingRecords (updateValues input now) (up_id input) in
  first_row results.

(** The object given to [.set(..)] by [verifyHousingRecord]. *)
Definition verifyValues (input : VerifyHousingRecordInput) (verifiedBy now : Z)
    (existing : HousingRecord) : HousingRecordSet :=
  {| set_verification_status := Some (vf_verification_status input);
     set_verified_by := value verifiedBy;
     set_verified_at := value now;
     set_notes := match js_or (vf_notes input) (hr_notes existing) with
                  | Some notes => value notes
                  | None => null
                  end;
     set_updated_at := Some now;
     set_head_of_household := None;
     set_housing_status := None;
     set_eligibility_category := None;
     set_district_id := None;
     set_village_id := None;
     set_latitude := undefined;
     set_longitude := undefined;
     set_address := None;
     set_phone := undefined;
     set_family_members := None;
     set_monthly_income := undefined;
     set_house_condition_score := undefined |}.

Definition verifyHousingRecord (input : VerifyHousingRecordInput) (verifiedBy now : Z)
  : handler HousingRecord :=
  let! existingRecord :=
    select housingRecordsTable (λ r, hr_id r = vf_id input) in
  match existingRecord with
  | [] => throw Housing_record_not_found
  | existing :: _ =>
      let! results :=
        update_housingRecords (verifyValues input verifiedBy now existing) (vf_id input) in
      first_row results
  end.

Definition deleteHousingRecord (id : Z) (deletedBy : Z) : handler bool :=
  let! existingRecord := select housingRecordsTable (λ r, hr_id r = id) in
  if is_empty existingRecord then throw Housing_record_not_found else
  let! deleted := delete_housingRecords id in
  resolve true.

(** [updateHousingCoordinates] of [handlers/gis.ts], the other writer of the
    housing-record table, and the object it gives to [.set(..)]. *)
Definition coordinateValues (latitude longitude : number) (now : Z) : HousingRecordSet :=
  {| set_latitude := value (Number_toString latitude);
     set_longitude := value (Number_toString longitude);
     set_updated_at := Some now;
     set_head_of_household := None;
     set_housing_status := None;
     set_eligibility_category := None;
     set_verification_status := None;
     set_district_id := None;
     set_village_id := None;
     set_address := None;
     set_phone := undefined;
     set_family_members := None;
     set_monthly_income := undefined;
     set_house_condition_score := undefined;
     set_notes := undefined;
     set_verified_by := undefined;
     set_verified_at := undefined |}.

Definition updateHousingCoordinates (housingRecordId : Z) (latitude longitude : number)
    (updatedBy now : Z) : handler HousingRecord :=
  let! existingRecord := select housingRecordsTable (λ r, hr_id r = housingRecordId) in
  if is_empty existingRecord then throw (Housing_record_with_ID_not_found housingRecordId) else
  let! result :=
    update_housingRecords (coordinateValues latitude longitude now) housingRecordId in
  first_row result.

(** ** The housing-record procedures of the router, [index.ts] *)

Record Context := {
  userId : option Z;
  userRole : option string;
  ipAddress : option string
}.

(** [protectedProcedure]: [if (!ctx.userId) throw UNAUTHORIZED]. *)
Definition protectedProcedure {A} (ctx : Context) (next : Z → handler A) : handler A :=
  match userId ctx with
  | Some userId => if truthy userId then next userId else throw UNAUTHORIZED
  | None => throw UNAUTHORIZED
  end.

(** [.input(schema)]: the input is parsed before the handler runs. *)
Definition parsed {A} (valid : bool) (next : handler A) : handler A :=
  if valid then next else throw BAD_REQUEST.

Definition is_digit (c : Ascii.ascii) : bool :=
  (48 <=? Ascii.nat_of_ascii c)%nat && (Ascii.nat_of_ascii c <=? 57)%nat.

(** [/^\d{16}$/] *)
Definition nik_regex (s : string) : bool :=
  (String.length s =? 16)%nat && forallb is_digit (String.list_ascii_of_string s).

Definition min_1 (s : string) : bool := (1 <=? String.length s)%nat.

(** [z.number().min(0).max(100).nullable().optional()] *)
Definition score_schema (x : nullable_optional Z) : bool :=
  match x with
  | value n => (0 <=? n) && (n <=? 100)
  | _ => true
  end.

Definition createHousingRecordInputSchema (input : CreateHousingRecordInput) : bool :=
  min_1 (cr_head_of_household input)
  && nik_regex (cr_nik input)
  && min_1 (cr_address input)
  && (0 <? cr_family_members input)
  && score_schema (cr_house_condition_score input).

Definition updateHousingRecordInputSchema (input : UpdateHousingRecordInput) : bool :=
  from_option min_1 true (up_head_of_household input)
  && from_option min_1 true (up_address input)
  && from_option (λ n, 0 <? n) true (up_family_members input)
  && score_schema (up_house_condition_score input).

Module housingRecords.

Definition create (ctx : Context) (input : CreateHousingRecordInput) (now : Z)
  : handler HousingRecord :=
  protectedProcedure ctx (λ userId,
    parsed (createHousingRecordInputSchema input) (createHousingRecord input userId now)).

Definition update (ctx : Context) (input : UpdateHousingRecordInput) (now : Z)
  : handler HousingRecord :=
  protectedProcedure ctx (λ userId,
    parsed (updateHousingRecordInputSchema input) (updateHousingRecord input userId now)).

Definition verify (ctx : Context) (input : VerifyHousingRecordInput) (now : Z)
  : handler HousingRecord :=
  protectedProcedure ctx (λ userId, verifyHousingRecord input userId now).

Definition delete (ctx : Context) (id : Z) : handler bool :=
  protectedProcedure ctx (λ userId, deleteHousingRecord id userId).

End housingRecords.

(** ** The audit log, [handlers/audit.ts] *)

Definition with_auditLogsTable (rows : list AuditLog) (seq : Z) (st : db) : db :=
  {| districtsTable := districtsTable st;
     districts_id_seq := districts_id_seq st;
     villagesTable := villagesTable st;
     villages_id_seq := villages_id_seq st;
     housingRecordsTable := housingRecordsTable st;
     housing_records_id_seq := housing_records_id_seq st;
     backlogsTable := backlogsTable st;
     backlogs_id_seq := backlogs_id_seq st;
     auditLogsTable := rows;
     audit_logs_id_seq := seq |}.

Definition insert_auditLog (values : Z → AuditLog) : handler AuditLog :=
  λ st, let entry := values (audit_logs_id_seq st) in
        (Ok entry,
         with_auditLogsTable (auditLogsTable st ++ [entry]) (audit_logs_id_seq st + 1) st).

Definition logAuditAction (userId : Z) (action : audit_action) (resourceType : string)
    (resourceId : option Z) (details ipAddress : option string) (now : Z)
  : handler AuditLog :=
  insert_auditLog (λ id,
    {| al_id := id;
       al_user_id := userId;
       al_action := action;
       al_resource_type := resourceType;
       al_resource_id := js_or (stored resourceId) None;
       al_details := js_or (stored details) None;
       al_ip_address := js_or (stored ipAddress) None;
       al_created_at := now |}).

(** [d.setDate(d.getDate() - n)] on [new Date()], in milliseconds. *)
Definition days_ago (now n : Z) : Z := now - n * 86400000.

(** [db.select({ count: count() }).from(table).where(P)], then [result[0].count] *)
Definition select_count {R} (table : db → list R) (P : R → Prop) `{∀ r, Decision (P r)}
  : handler Z :=
  λ st, (Ok (Z.of_nat (length (filter P (table st)))), st).

(** [Math.floor(count * 0.1)] in IEEE binary64 arithmetic, for a count below
    [2^53].  The double nearest to one tenth is [tenth * 2^-56]; the exact
    product is rounded to 53 significant bits, ties to even, and floored. *)
Definition tenth : Z := 7205759403792794.

Definition round_53 (n : Z) : Z :=
  let shift := Z.log2 n - 52 in
  if shift <=? 0 then n else
  let q := Z.shiftr n shift in
  let rest := n - Z.shiftl q shift in
  let half := Z.shiftl 1 (shift - 1) in
  if (half <? rest) || ((rest =? half) && Z.odd q)
  then Z.shiftl (q + 1) shift
  else Z.shiftl q shift.

Definition Math_floor_times_0_1 (count : Z) : Z :=
  Z.shiftr (round_53 (count * tenth)) 56.

Record SecurityReport := {
  suspicious_activities : Z;
  failed_logins : Z;
  data_exports : Z;
  recent_changes : Z
}.

Definition getSecurityReport (now : Z) : handler SecurityReport :=
  let weekAgo := days_ago now 7 in
  let! failedLoginsResult :=
    select_count auditLogsTable (λ e, al_action e = LOGIN ∧ weekAgo ≤ al_created_at e) in
  let! dataExportsResult :=
    select_count auditLogsTable (λ e, al_action e = EXPORT ∧ weekAgo ≤ al_created_at e) in
  let! recentChangesResult :=
    select_count auditLogsTable (λ e, weekAgo ≤ al_created_at e) in
  let yesterdayAgo := days_ago now 1 in
  let! suspiciousActivitiesResult :=
    select_count auditLogsTable (λ e, yesterdayAgo ≤ al_created_at e) in
  let suspiciousActivities := Math_floor_times_0_1 suspiciousActivitiesResult in
  resolve {| suspicious_activities := suspiciousActivities;
             failed_logins := failedLoginsResult;
             data_exports := dataExportsResult;
             recent_changes := recentChangesResult |}.

(** ** Backlogs *)

Record CreateBacklogInput := {
  cb_district_id : Z;
  cb_village_id : Z;
  cb_backlog_type : backlog_type;
  cb_family_count : Z;
  cb_year : Z;
  cb_month : Z
}.

Definition with_backlogsTable (rows : list Backlog) (seq : Z) (st : db) : db :=
  {| districtsTable := districtsTable st;
     districts_id_seq := districts_id_seq st;
     villagesTable := villagesTable st;
     villages_id_seq := villages_id_seq st;
     housingRecordsTable := housingRecordsTable st;
     housing_records_id_seq := housing_records_id_seq st;
     backlogsTable := rows;
     backlogs_id_seq := seq;
     auditLogsTable := auditLogsTable st;
     audit_logs_id_seq := audit_logs_id_seq st |}.

Definition insert_backlog (values : Z → Backlog) : handler Backlog :=
  λ st, let entry := values (backlogs_id_seq st) in
        (Ok entry,
         with_backlogsTable (backlogsTable st ++ [entry]) (backlogs_id_seq st + 1) st).

(** The object given to [.values(..)] by [createBacklog], completed with the
    identifier and the column defaults. *)
Definition backlog_values (input : CreateBacklogInput) (createdBy now id : Z) : Backlog :=
  {| bl_id := id;
     bl_district_id := cb_district_id input;
     bl_village_id := cb_village_id input;
     bl_backlog_type := cb_backlog_type input;
     bl_family_count := cb_family_count input;
     bl_year := cb_year input;
     bl_month := cb_month input;
     bl_created_by := createdBy;
     bl_created_at := now;
     bl_updated_at := now |}.

Definition createBacklog (input : CreateBacklogInput) (createdBy now : Z) : handler Backlog :=
  let! districtExists :=
    select districtsTable (λ d, d_id d = cb_district_id input) in
  if is_empty districtExists
  then throw (District_with_ID_does_not_exist (cb_district_id input)) else
  let! villageExists :=
    select villagesTable (λ v, v_id v = cb_village_id input
                               ∧ v_district_id v = cb_district_id input) in
  if is_empty villageExists
  then throw (Village_with_ID_does_not_exist_in_district
                (cb_village_id input) (cb_district_id input)) else
  let! existingBacklog :=
    select backlogsTable (λ b, bl_district_id b = cb_district_id input
                               ∧ bl_village_id b = cb_village_id input
                               ∧ bl_backlog_type b = cb_backlog_type input
                               ∧ bl_year b = cb_year input
                               ∧ bl_month b = cb_month input) in
  if negb (is_empty existingBacklog) then throw A_backlog_entry_already_exists else
  insert_backlog (backlog_values input createdBy now).

Definition getBacklogsByDateRange (startYear startMonth endYear endMonth : Z)
  : handler (list Backlog) :=
  if decide (startYear = endYear) then
    select backlogsTable (λ b, bl_year b = startYear
                               ∧ startMonth ≤ bl_month b
                               ∧ bl_month b ≤ endMonth)
  else
    select backlogsTable (λ b, (bl_year b = startYear ∧ startMonth ≤ bl_month b)
                               ∨ (bl_year b = endYear ∧ bl_month b ≤ endMonth)
                               ∨ (startYear + 1 ≤ bl_year b ∧ bl_year b ≤ endYear - 1)).

Definition update_backlog_row (familyCount now id : Z) (b : Backlog) : Backlog :=
  if decide (bl_id b = id) then
    {| bl_id := bl_id b;
       bl_district_id := bl_district_id b;
       bl_village_id := bl_village_id b;
       bl_backlog_type := bl_backlog_type b;
       bl_family_count := familyCount;
       bl_year := bl_year b;
       bl_month := bl_month b;
       bl_created_by := bl_created_by b;
       bl_created_at := bl_created_at b;
       bl_updated_at := now |}
  else b.

Definition update_backlogs (familyCount now id : Z) : handler (list Backlog) :=
  λ st, (Ok (update_backlog_row familyCount now id
               <$> filter (λ b, bl_id b = id) (backlogsTable st)),
         with_backlogsTable (update_backlog_row familyCount now id <$> backlogsTable st)
                            (backlogs_id_seq st) st).

Definition updateBacklog (id familyCount updatedBy now : Z) : handler Backlog :=
  let! existingBacklog := select backlogsTable (λ b, bl_id b = id) in
  if is_empty existingBacklog then throw (Backlog_with_ID_does_not_exist id) else
  let! results := update_backlogs familyCount now id in
  match results with
  | entry :: _ => resolve entry
  | [] => throw TypeError
  end.

(** ** Reference data, [handlers/districts.ts] and [handlers/villages.ts] *)

Record CreateDistrictInput := {
  cd_name : string;
  cd_code : string
}.

Record CreateVillageInput := {
  cv_name : string;
  cv_code : string;
  cv_district_id : Z
}.

Definition with_districtsTable (rows : list District) (seq : Z) (st : db) : db :=
  {| districtsTable := rows;
     districts_id_seq := seq;
     villagesTable := villagesTable st;
     villages_id_seq := villages_id_seq st;
     housingRecordsTable := housingRecordsTable st;
     housing_records_id_seq := housing_records_id_seq st;
     backlogsTable := backlogsTable st;
     backlogs_id_seq := backlogs_id_seq st;
     auditLogsTable := auditLogsTable st;
     audit_logs_id_seq := audit_logs_id_seq st |}.

Definition with_villagesTable (rows : list Village) (seq : Z) (st : db) : db :=
  {| districtsTable := districtsTable st;
     districts_id_seq := districts_id_seq st;
     villagesTable := rows;
     villages_id_seq := seq;
     housingRecordsTable := housingRecordsTable st;
     housing_records_id_seq := housing_records_id_seq st;
     backlogsTable := backlogsTable st;
     backlogs_id_seq := backlogs_id_seq st;
     auditLogsTable := auditLogsTable st;
     audit_logs_id_seq := audit_logs_id_seq st |}.

(** The insertions below are guarded by the tables' unique constraints only:
    [districts.code], and [(villages.code, villages.district_id)].  A refused
    insertion still consumes a value of the sequence. *)
Definition createDistrict (input : CreateDistrictInput) : handler District :=
  λ st, let row := {| d_id := districts_id_seq st;
                      d_name := cd_name input;
                      d_code := cd_code input |} in
        if is_empty (filter (λ d, d_code d = cd_code input) (districtsTable st))
        then (Ok row,
              with_districtsTable (districtsTable st ++ [row]) (districts_id_seq st + 1) st)
        else (Err (unique_violation "districts_code_unique"),
              with_districtsTable (districtsTable st) (districts_id_seq st + 1) st).

Definition insert_village (input : CreateVillageInput) : handler Village :=
  λ st, let row := {| v_id := villages_id_seq st;
                      v_name := cv_name input;
                      v_code := cv_code input;
                      v_district_id := cv_district_id input |} in
        if is_empty (filter (λ v, v_code v = cv_code input
                                  ∧ v_district_id v = cv_district_id input)
                            (villagesTable st))
        then (Ok row,
              with_villagesTable (villagesTable st ++ [row]) (villages_id_seq st + 1) st)
        else (Err (unique_violation "villages_code_district_unique"),
              with_villagesTable (villagesTable st) (villages_id_seq st + 1) st).

Definition createVillage (input : CreateVillageInput) : handler Village :=
  let! district := select districtsTable (λ d, d_id d = cv_district_id input) in
  if is_empty district then throw (District_with_ID_not_found (cv_district_id input)) else
  insert_village input.

(** ** The calls that write to the database, and the states they reach

    These are the handlers that write to the tables above. The report
    handlers, which append entries of their own to the audit log and write
    nowhere else, and the handlers of the user and document tables are left
    out. *)

Inductive call :=
| call_createDistrict (input : CreateDistrictInput)
| call_createVillage (input : CreateVillageInput)
| call_createHousingRecord (input : CreateHousingRecordInput) (createdBy now : Z)
| call_updateHousingRecord (input : UpdateHousingRecordInput) (updatedBy now : Z)
| call_verifyHousingRecord (input : VerifyHousingRecordInput) (verifiedBy now : Z)
| call_deleteHousingRecord (id deletedBy : Z)
| call_updateHousingCoordinates (id : Z) (latitude longitude : number) (updatedBy now : Z)
| call_createBacklog (input : CreateBacklogInput) (createdBy now : Z)
| call_updateBacklog (id familyCount updatedBy now : Z)
| call_logAuditAction (userId : Z) (action : audit_action) (resourceType : string)
    (resourceId : option Z) (details ipAddress : option string) (now : Z).

Definition after (c : call) (st : db) : db :=
  match c with
  | call_createDistrict input => (createDistrict input st).2
  | call_createVillage input => (createVillage input st).2
  | call_createHousingRecord input createdBy now =>
      (createHousingRecord input createdBy now st).2
  | call_updateHousingRecord input updatedBy now =>
      (updateHousingRecord input updatedBy now st).2
  | call_verifyHousingRecord input verifiedBy now =>
      (verifyHousingRecord input verifiedBy now st).2
  | call_deleteHousingRecord id deletedBy => (deleteHousingRecord id deletedBy st).2
  | call_updateHousingCoordinates id latitude longitude updatedBy now =>
      (updateHousingCoordinates id latitude longitude updatedBy now st).2
  | call_createBacklog input createdBy now => (createBacklog input createdBy now st).2
  | call_updateBacklog id familyCount updatedBy now =>
      (updateBacklog id familyCount updatedBy now st).2
  | call_logAuditAction userId action resourceType resourceId details ipAddress now =>
      (logAuditAction userId action resourceType resourceId details ipAddress now st).2
  end.

(** The database as [createDB] leaves it: every table empty, every sequence
    at its first value. *)
Definition createDB : db :=
  {| districtsTable := [];
     districts_id_seq := 1;
     villagesTable := [];
     villages_id_seq := 1;
     housingRecordsTable := [];
     housing_records_id_seq := 1;
     backlogsTable := [];
     backlogs_id_seq := 1;
     auditLogsTable := [];
     audit_logs_id_seq := 1 |}.

Inductive reachable : db → Prop :=
| reachable_createDB : reachable createDB
| reachable_after c st : reachable st → reachable (after c st).

(** * The other handlers *)

(** [db.select().from(table).execute()] *)
Definition select_all {R} (table : db → list R) : handler (list R) :=
  λ st, (Ok (table st), st).

(** ** Housing records: the queries of [handlers/housing_records.ts] *)

Definition getHousingRecords : handler (list HousingRecord) :=
  let! results := select_all housingRecordsTable in
  resolve (with_numbers <$> results).

Definition getHousingRecordById (id : Z) : handler (option HousingRecord) :=
  let! results := select housingRecordsTable (λ r, hr_id r = id) in
  match results with
  | [] => resolve None
  | record :: _ => resolve (Some (with_numbers record))
  end.

Definition getHousingRecordsByDistrict (districtId : Z) : handler (list HousingRecord) :=
  let! results := select housingRecordsTable (λ r, hr_district_id r = districtId) in
  resolve (with_numbers <$> results).

Definition getHousingRecordsByVillage (villageId : Z) : handler (list HousingRecord) :=
  let! results := select housingRecordsTable (λ r, hr_village_id r = villageId) in
  resolve (with_numbers <$> results).

(** ** Backlogs: the queries *)

Definition getBacklogs : handler (list Backlog) := select_all backlogsTable.

Definition getBacklogById (id : Z) : handler (option Backlog) :=
  let! results := select backlogsTable (λ b, bl_id b = id) in
  resolve (head results).

Definition getBacklogsByDistrict (districtId : Z) : handler (list Backlog) :=
  select backlogsTable (λ b, bl_district_id b = districtId).

(** ** Reference data: the queries *)

Definition getDistrictById (id : Z) : handler (option District) :=
  let! results := select districtsTable (λ d, d_id d = id) in
  resolve (head results).

Definition getVillages : handler (list Village) := select_all villagesTable.

Definition getVillagesByDistrict (districtId : Z) : handler (list Village) :=
  select villagesTable (λ v, v_district_id v = districtId).

Definition getVillageById (id : Z) : handler (option Village) :=
  let! result := select villagesTable (λ v, v_id v = id) in
  resolve (head result).

(** ** The audit log: the queries of [handlers/audit.ts] *)

(** [.orderBy(desc(auditLogsTable.created_at))]: newest first. The order of
    two entries created at the same instant is the database's choice. *)
Definition newest_first (a b : AuditLog) : Prop := al_created_at b ≤ al_created_at a.

#[global] Instance newest_first_dec : RelDecision newest_first.
Proof. unfold RelDecision, newest_first. apply _. Defined.

Definition order_by_created_at_desc (rows : list AuditLog) : list AuditLog :=
  merge_sort newest_first rows.

(** The conditions [getAuditLogs] collects; a [Date] is always truthy, so a
    bound is used whenever it is given. *)
Definition audit_conditions (userId dateFrom dateTo : option Z) (e : AuditLog) : Prop :=
  from_option (λ u, al_user_id e = u) True userId
  ∧ from_option (λ from, from ≤ al_created_at e) True dateFrom
  ∧ from_option (λ to, al_created_at e ≤ to) True dateTo.

#[global] Instance audit_conditions_dec userId dateFrom dateTo e :
  Decision (audit_conditions userId dateFrom dateTo e).
Proof.
  unfold audit_conditions. destruct userId, dateFrom, dateTo; simpl; apply _.
Defined.

Definition getAuditLogs (userId dateFrom dateTo : option Z) : handler (list AuditLog) :=
  let! rows := select auditLogsTable (audit_conditions userId dateFrom dateTo) in
  resolve (order_by_created_at_desc rows).

Definition getAuditLogsByResource (resourceType : string) (resourceId : Z)
  : handler (list AuditLog) :=
  let! rows := select auditLogsTable (λ e, al_resource_type e = resourceType
                                           ∧ al_resource_id e = Some resourceId) in
  resolve (order_by_created_at_desc rows).

(** ** The map, [getHousingMapData] of [handlers/gis.ts] *)


(** The conditions [getHousingMapData] collects. *)
Definition map_conditions (districtId villageId : option Z)
    (housingStatus : option housing_status) (r : HousingRecord) : Prop :=
  is_Some (hr_latitude r)
  ∧ is_Some (hr_longitude r)
  ∧ from_option (λ d, hr_district_id r = d) True districtId
  ∧ from_option (λ v, hr_village_id r = v) True villageId
  ∧ from_option (λ s, hr_housing_status r = s) True housingStatus.

#[global] Instance map_conditions_dec districtId villageId housingStatus r :
  Decision (map_conditions districtId villageId housingStatus r).
Proof.
  unfold map_conditions. destruct districtId, villageId, housingStatus; simpl; apply _.
Defined.



(** ** The dashboard, [getDashboardStats] and [getVerificationStats] *)

(** [sum(case when P then 1 else 0 end)] over the rows: [NULL] when there is
    no row. *)
Definition sum_case {R} (P : R → Prop) `{∀ r, Decision (P r)} (rows : list R) : option Z :=
  match rows with
  | [] => None
  | _ :: _ => Some (Z.of_nat (length (filter P rows)))
  end.

(** [Number(x)] of a sum: [Number(null)] is 0. *)
Definition Number (x : option Z) : Z :=
  match x with
  | Some n => n
  | None => 0
  end.

(** [count(table.id)] *)
Definition count_id {R} (rows : list R) : Z := Z.of_nat (length rows).

Record DashboardStats := {
  total_houses : Z;
  rtlh_count : Z;
  rlh_count : Z;
  pending_verification : Z;
  districts_count : Z;
  villages_count : Z
}.

Definition getDashboardStats : handler DashboardStats :=
  let! housing := select_all housingRecordsTable in
  let! districts := select_all districtsTable in
  let! villages := select_all villagesTable in
  resolve
    {| total_houses := count_id housing;
       rtlh_count := Number (sum_case (λ r, hr_housing_status r = RTLH) housing);
       rlh_count := Number (sum_case (λ r, hr_housing_status r = RLH) housing);
       pending_verification :=
         Number (sum_case (λ r, hr_verification_status r = PENDING) housing);
       districts_count := count_id districts;
       villages_count := count_id villages |}.

Record VerificationStats := {
  vs_pending : Z;
  vs_verified : Z;
  vs_rejected : Z
}.

Definition getVerificationStats : handler VerificationStats :=
  let! housing := select_all housingRecordsTable in
  resolve
    {| vs_pending := Number (sum_case (λ r, hr_verification_status r = PENDING) housing);
       vs_verified := Number (sum_case (λ r, hr_verification_status r = VERIFIED) housing);
       vs_rejected := Number (sum_case (λ r, hr_verification_status r = REJECTED) housing) |}.

(** ** The monthly trends: the loop of [getMonthlyTrends] that fills in the
    months the query has no row for *)

Record MonthlyTrend := {
  mt_month : Z;
  mt_rtlh_created : Z;
  mt_rlh_created : Z;
  mt_verified_count : Z
}.

(** One turn of [for (let month = 1; month <= 12; month++)]. *)
Definition monthly_row (results : list MonthlyTrend) (month : Z) : MonthlyTrend :=
  match find (λ r, bool_decide (mt_month r = month)) results with
  | Some existingData =>
      {| mt_month := month;
         mt_rtlh_created := mt_rtlh_created existingData;
         mt_rlh_created := mt_rlh_created existingData;
         mt_verified_count := mt_verified_count existingData |}
  | None =>
      {| mt_month := month;
         mt_rtlh_created := 0;
         mt_rlh_created := 0;
         mt_verified_count := 0 |}
  end.

Definition monthlyData (results : list MonthlyTrend) : list MonthlyTrend :=
  monthly_row results <$> [1; 2; 3; 4; 5; 6; 7; 8; 9; 10; 11; 12].

(** ** The request context, [createContext] of [index.ts] *)

Record Request := {
  authorization : option string;
  ip : option string;
  remoteAddress : option string
}.

Definition createContext (req : Request) : Context :=
  let authHeader := authorization req in
  let ipAddress := js_or (stored (ip req)) (remoteAddress req) in
  match authHeader with
  | Some header =>
      if String.prefix "Bearer " header
      then {| userId := Some 1; userRole := Some "PUPR_ADMIN"; ipAddress := ipAddress |}
      else {| userId := None; userRole := None; ipAddress := ipAddress |}
  | None => {| userId := None; userRole := None; ipAddress := ipAddress |}
  end.

(** * The notions the properties are stated with *)

(** ** Runs of calls *)

(** The database after a sequence of calls. *)
Definition after_all (calls : list call) (st : db) : db :=
  foldl (λ st c, after c st) st calls.

(** The clock reading a call is made at, for the calls that read the clock. *)
Definition call_time (c : call) : option Z :=
  match c with
  | call_createDistrict _ | call_createVillage _ | call_deleteHousingRecord _ _ => None
  | call_createHousingRecord _ _ now
  | call_updateHousingRecord _ _ now
  | call_verifyHousingRecord _ _ now
  | call_updateHousingCoordinates _ _ _ _ now
  | call_createBacklog _ _ now
  | call_updateBacklog _ _ _ now
  | call_logAuditAction _ _ _ _ _ _ now => Some now
  end.

(** What one call, made at the clock reading [time] if it reads the clock, may
    do to the housing-record table. *)
Inductive housing_step (time : option Z) (st st' : db) : Prop :=
| housing_same :
    housingRecordsTable st' = housingRecordsTable st →
    housing_records_id_seq st' = housing_records_id_seq st →
    housing_step time st st'
| housing_inserted record :
    (∀ r, r ∈ housingRecordsTable st → hr_nik r ≠ hr_nik record) →
    hr_id record = housing_records_id_seq st →
    Some (hr_updated_at record) = time →
    housingRecordsTable st' = housingRecordsTable st ++ [record] →
    housing_records_id_seq st' = housing_records_id_seq st + 1 →
    housing_step time st st'
| housing_updated u id :
    set_updated_at u = time →
    housingRecordsTable st' = update_row u id <$> housingRecordsTable st →
    housing_records_id_seq st' = housing_records_id_seq st →
    housing_step time st st'
| housing_deleted id :
    housingRecordsTable st' = filter (λ r, hr_id r ≠ id) (housingRecordsTable st) →
    housing_records_id_seq st' = housing_records_id_seq st →
    housing_step time st st'.

(** States reached by calls made at clock readings that never go back;
    [clock] is a reading not before the last call. *)
Inductive reachable_at : Z → db → Prop :=
| reachable_at_createDB clock : reachable_at clock createDB
| reachable_at_after clock c st :
    reachable_at clock st →
    (∀ now, call_time c = Some now → clock ≤ now) →
    reachable_at (default clock (call_time c)) (after c st)
| reachable_at_later clock clock' st :
    reachable_at clock st → clock ≤ clock' → reachable_at clock' st.

(** The identity numbers of the stored records are pairwise distinct. *)
Definition nik_unique (st : db) : Prop := NoDup (hr_nik <$> housingRecordsTable st).

(** The primary key: identifiers come from the sequence and are distinct. *)
Definition id_unique (st : db) : Prop :=
  NoDup (hr_id <$> housingRecordsTable st)
  ∧ ∀ r, r ∈ housingRecordsTable st → hr_id r < housing_records_id_seq st.

(** No stored record was updated after the clock reading. *)
Definition updated_before (clock : Z) (st : db) : Prop :=
  ∀ r, r ∈ housingRecordsTable st → hr_updated_at r ≤ clock.

(** ** Housing records *)

(** The three columns of the verification workflow. *)
Definition verification_state (r : HousingRecord)
  : verification_status * option Z * option Z :=
  (hr_verification_status r, hr_verified_by r, hr_verified_at r).

(** The update input includes one of the significant fields. *)
Definition includes_significant_field (input : UpdateHousingRecordInput) : Prop :=
  is_Some (up_head_of_household input)
  ∨ is_Some (up_housing_status input)
  ∨ is_Some (up_eligibility_category input)
  ∨ is_Some (up_address input)
  ∨ is_Some (up_family_members input).

(** The record's village is a village of the record's district. *)
Definition village_in_district (st : db) (r : HousingRecord) : Prop :=
  Exists (λ v, v_id v = hr_village_id r ∧ v_district_id v = hr_district_id r)
         (villagesTable st).

(** Every stored record has its village in its district. *)
Definition villages_consistent (st : db) : Prop :=
  Forall (village_in_district st) (housingRecordsTable st).

#[global] Instance village_in_district_dec st r : Decision (village_in_district st r).
Proof. unfold village_in_district. apply _. Defined.

#[global] Instance villages_consistent_dec st : Decision (villages_consistent st).
Proof. unfold villages_consistent. apply _. Defined.

(** One entry was appended to the audit log for an operation on the housing
    record [id]. *)
Definition one_audit_entry_emitted (st st' : db) (action : audit_action) (id : Z) : Prop :=
  ∃ entry,
    auditLogsTable st' = auditLogsTable st ++ [entry]
    ∧ al_action entry = action
    ∧ al_resource_type entry = "housing_record"
    ∧ al_resource_id entry = Some id.

(** ** Backlogs *)

(** The five columns of the unique constraint [backlogs_unique_entry]. *)
Definition backlog_key (b : Backlog) : Z * Z * backlog_type * Z * Z :=
  (bl_district_id b, bl_village_id b, bl_backlog_type b, bl_year b, bl_month b).

Definition input_key (input : CreateBacklogInput) : Z * Z * backlog_type * Z * Z :=
  (cb_district_id input, cb_village_id input, cb_backlog_type input,
   cb_year input, cb_month input).

(** No handler removes a district, a village or a backlog entry, nor changes
    the key of a backlog entry. *)
Definition keeps_backlog_data (st st' : db) : Prop :=
  (∀ d, d ∈ districtsTable st → d ∈ districtsTable st')
  ∧ (∀ v, v ∈ villagesTable st → v ∈ villagesTable st')
  ∧ (∀ b, b ∈ backlogsTable st →
          ∃ b', b' ∈ backlogsTable st' ∧ backlog_key b' = backlog_key b).

(** [(y1, m1) ≤ (y2, m2)] in the lexicographic order of (year, month). *)
Definition month_le (y1 m1 y2 m2 : Z) : Prop := y1 < y2 ∨ (y1 = y2 ∧ m1 ≤ m2).

(** The entry's (year, month) lies between the two bounds. *)
Definition in_range (startYear startMonth endYear endMonth : Z) (b : Backlog) : Prop :=
  month_le startYear startMonth (bl_year b) (bl_month b)
  ∧ month_le (bl_year b) (bl_month b) endYear endMonth.

#[global] Instance in_range_dec startYear startMonth endYear endMonth b :
  Decision (in_range startYear startMonth endYear endMonth b).
Proof. unfold in_range, month_le. apply _. Defined.

(** The three parts of a range over several years, in the specification's
    words: the months of the start year from [startMonth] on, the months of the
    end year up to [endMonth], and every month of a year strictly between. *)
Definition tail_of_start_year (startYear startMonth : Z) (b : Backlog) : Prop :=
  bl_year b = startYear ∧ startMonth ≤ bl_month b.
Definition head_of_end_year (endYear endMonth : Z) (b : Backlog) : Prop :=
  bl_year b = endYear ∧ bl_month b ≤ endMonth.
Definition enclosed_year (startYear endYear : Z) (b : Backlog) : Prop :=
  startYear < bl_year b ∧ bl_year b < endYear.

(** The entries the specification's case analysis selects. *)
Definition selected (startYear startMonth endYear endMonth : Z) (b : Backlog) : Prop :=
  (startYear = endYear
   ∧ bl_year b = startYear ∧ startMonth ≤ bl_month b ∧ bl_month b ≤ endMonth)
  ∨ (startYear ≠ endYear
     ∧ (tail_of_start_year startYear startMonth b
        ∨ head_of_end_year endYear endMonth b
        ∨ enclosed_year startYear endYear b)).

#[global] Instance selected_dec startYear startMonth endYear endMonth b :
  Decision (selected startYear startMonth endYear endMonth b).
Proof.
  unfold selected, tail_of_start_year, head_of_end_year, enclosed_year. apply _.
Defined.

(** ** The audit log *)

(** The entry was created in the last [n] days before [now]. *)
Definition in_last_days (now n : Z) (e : AuditLog) : bool :=
  (now - n * 86400000 <=? al_created_at e) && (al_created_at e <=? now).

Definition has_action (action : audit_action) (e : AuditLog) : bool :=
  bool_decide (al_action e = action).

(** The number of entries of the log that satisfy [P]. *)
Fixpoint count_entries (P : AuditLog → bool) (log : list AuditLog) : Z :=
  match log with
  | [] => 0
  | e :: log => (if P e then 1 else 0) + count_entries P log
  end.

(** ** The tables along a run, handler by handler *)

(** What one call, made at the clock reading [time] if it reads the clock,
    does to the housing-record table. *)
Inductive housing_change (time : option Z) (st st' : db) : Prop :=
| change_none :
    housingRecordsTable st' = housingRecordsTable st →
    housing_change time st st'
| change_created input createdBy now :
    time = Some now →
    housingRecordsTable st'
      = housingRecordsTable st
          ++ [housing_values input createdBy now (housing_records_id_seq st)] →
    housing_change time st st'
| change_updated input now :
    time = Some now →
    housingRecordsTable st'
      = update_row (updateValues input now) (up_id input) <$> housingRecordsTable st →
    housing_change time st st'
| change_verified input verifiedBy now existing :
    time = Some now →
    housingRecordsTable st'
      = update_row (verifyValues input verifiedBy now existing) (vf_id input)
          <$> housingRecordsTable st →
    housing_change time st st'
| change_coordinates id latitude longitude now :
    time = Some now →
    housingRecordsTable st'
      = update_row (coordinateValues latitude longitude now) id <$> housingRecordsTable st →
    housing_change time st st'
| change_deleted id :
    housingRecordsTable st' = filter (λ r, hr_id r ≠ id) (housingRecordsTable st) →
    housing_change time st st'.

(** What one call does to the district and village tables. *)
Inductive reference_change (st st' : db) : Prop :=
| reference_same :
    districtsTable st' = districtsTable st →
    villagesTable st' = villagesTable st →
    districts_id_seq st ≤ districts_id_seq st' →
    villages_id_seq st ≤ villages_id_seq st' →
    reference_change st st'
| district_added input :
    districtsTable st'
      = districtsTable st ++ [{| d_id := districts_id_seq st;
                                 d_name := cd_name input;
                                 d_code := cd_code input |}] →
    districts_id_seq st' = districts_id_seq st + 1 →
    villagesTable st' = villagesTable st →
    villages_id_seq st' = villages_id_seq st →
    reference_change st st'
| village_added input :
    (∃ d, d ∈ districtsTable st ∧ d_id d = cv_district_id input) →
    villagesTable st'
      = villagesTable st ++ [{| v_id := villages_id_seq st;
                                v_name := cv_name input;
                                v_code := cv_code input;
                                v_district_id := cv_district_id input |}] →
    villages_id_seq st' = villages_id_seq st + 1 →
    districtsTable st' = districtsTable st →
    districts_id_seq st' = districts_id_seq st →
    reference_change st st'.

(** What one call does to the backlog table. *)
Inductive backlog_change (st st' : db) : Prop :=
| backlog_same :
    backlogsTable st' = backlogsTable st →
    backlogs_id_seq st' = backlogs_id_seq st →
    backlog_change st st'
| backlog_added input createdBy now :
    (∃ v, v ∈ villagesTable st
          ∧ v_id v = cb_village_id input ∧ v_district_id v = cb_district_id input) →
    (∀ b, b ∈ backlogsTable st → backlog_key b ≠ input_key input) →
    backlogsTable st'
      = backlogsTable st ++ [backlog_values input createdBy now (backlogs_id_seq st)] →
    backlogs_id_seq st' = backlogs_id_seq st + 1 →
    backlog_change st st'
| backlog_updated familyCount now id :
    backlogsTable st' = update_backlog_row familyCount now id <$> backlogsTable st →
    backlogs_id_seq st' = backlogs_id_seq st →
    backlog_change st st'.


(** The verification columns agree with each other: [verified_by] and
    [verified_at] are both set or both null, and they are set on a record that
    is not PENDING. *)
Definition verification_coherent (r : HousingRecord) : Prop :=
  (is_Some (hr_verified_by r) ↔ is_Some (hr_verified_at r))
  ∧ (hr_verification_status r ≠ PENDING → is_Some (hr_verified_by r)).

(** The timestamps of a record are in order, and none is after [clock]. *)
Definition timestamps_ordered (clock : Z) (r : HousingRecord) : Prop :=
  hr_created_at r ≤ hr_updated_at r
  ∧ hr_updated_at r ≤ clock
  ∧ ∀ at_, hr_verified_at r = Some at_ → hr_created_at r ≤ at_ ∧ at_ ≤ hr_updated_at r.

(** The columns of a housing record that identify it and its origin. *)
Definition identity_columns (r : HousingRecord) : Z * string * Z * Z :=
  (hr_id r, hr_nik r, hr_created_by r, hr_created_at r).

(** Reference data: identifiers come from the sequences, which start at 1,
    and every village has its district. *)
Definition reference_data_sound (st : db) : Prop :=
  (∀ d, d ∈ districtsTable st → 1 ≤ d_id d ∧ d_id d < districts_id_seq st)
  ∧ NoDup (d_id <$> districtsTable st)
  ∧ (∀ v, v ∈ villagesTable st → 1 ≤ v_id v ∧ v_id v < villages_id_seq st)
  ∧ NoDup (v_id <$> villagesTable st)
  ∧ (∀ v, v ∈ villagesTable st → ∃ d, d ∈ districtsTable st ∧ d_id d = v_district_id v).

(** Backlogs: one entry per key, identifiers from the sequence, and every
    entry's village is a village of the entry's district. *)
Definition backlogs_sound (st : db) : Prop :=
  NoDup (backlog_key <$> backlogsTable st)
  ∧ NoDup (bl_id <$> backlogsTable st)
  ∧ (∀ b, b ∈ backlogsTable st → bl_id b < backlogs_id_seq st)
  ∧ (∀ b, b ∈ backlogsTable st →
          ∃ v, v ∈ villagesTable st
               ∧ v_id v = bl_village_id b ∧ v_district_id v = bl_district_id b).

(** The input of the router's [create] procedure is well formed, column by
    column, as the stored record shows it. *)
Definition well_formed_record (r : HousingRecord) : Prop :=
  nik_regex (hr_nik r) = true
  ∧ hr_head_of_household r ≠ ""
  ∧ hr_address r ≠ ""
  ∧ 0 < hr_family_members r
  ∧ (∀ score, hr_house_condition_score r = Some score → 1 ≤ score ∧ score ≤ 100)
  ∧ hr_phone r ≠ Some ""
  ∧ hr_notes r ≠ Some "".

(** * Sample data, after the fixtures of the handler tests *)

Module sample.

(** Two districts and a village of the first one. *)
Definition empty_store : db :=
  after (call_createVillage {| cv_name := "Test Village"; cv_code := "TV01";
                               cv_district_id := 1 |})
    (after (call_createDistrict {| cd_name := "Another District"; cd_code := "AD01" |})
       (after (call_createDistrict {| cd_name := "Test District"; cd_code := "TD01" |})
          createDB)).

Definition testInput : CreateHousingRecordInput :=
  {| cr_head_of_household := "John Doe";
     cr_nik := "1234567890123456";
     cr_housing_status := RTLH;
     cr_eligibility_category := POOR;
     cr_district_id := 1;
     cr_village_id := 1;
     cr_latitude := value (-612345600);
     cr_longitude := value 10612345600;
     cr_address := "123 Main Street";
     cr_phone := value "081234567890";
     cr_family_members := 4;
     cr_monthly_income := value 250000000;
     cr_house_condition_score := value 35;
     cr_notes := value "Test notes" |}.

Definition testUser : Z := 1.

(** The store after [createHousingRecord(testInput, testUser)] at time 1000. *)
Definition one_record : db :=
  after (call_createHousingRecord testInput testUser 1000) empty_store.

(** ... and after the record was verified at time 2000. *)
Definition verified_record : db :=
  after (call_verifyHousingRecord
           {| vf_id := 1; vf_verification_status := VERIFIED; vf_notes := undefined |}
           testUser 2000) one_record.

(** Updates of one field. *)
Definition set_housing_status (id : Z) (status : housing_status)
  : UpdateHousingRecordInput :=
  {| up_id := id;
     up_head_of_household := None;
     up_housing_status := Some status;
     up_eligibility_category := None;
     up_district_id := None;
     up_village_id := None;
     up_latitude := undefined;
     up_longitude := undefined;
     up_address := None;
     up_phone := undefined;
     up_family_members := None;
     up_monthly_income := undefined;
     up_house_condition_score := undefined;
     up_notes := undefined |}.

Definition set_district (id district_id : Z) : UpdateHousingRecordInput :=
  {| up_id := id;
     up_head_of_household := None;
     up_housing_status := None;
     up_eligibility_category := None;
     up_district_id := Some district_id;
     up_village_id := None;
     up_latitude := undefined;
     up_longitude := undefined;
     up_address := None;
     up_phone := undefined;
     up_family_members := None;
     up_monthly_income := undefined;
     up_house_condition_score := undefined;
     up_notes := undefined |}.

Definition set_latitude_null (id : Z) : UpdateHousingRecordInput :=
  {| up_id := id;
     up_head_of_household := None;
     up_housing_status := None;
     up_eligibility_category := None;
     up_district_id := None;
     up_village_id := None;
     up_latitude := null;
     up_longitude := undefined;
     up_address := None;
     up_phone := undefined;
     up_family_members := None;
     up_monthly_income := undefined;
     up_house_condition_score := undefined;
     up_notes := undefined |}.

(** [testInput] with falsy optional fields and another identity number. *)
Definition falsyInput : CreateHousingRecordInput :=
  {| cr_head_of_household := "Jane Doe";
     cr_nik := "1234567890123457";
     cr_housing_status := RLH;
     cr_eligibility_category := MODERATE;
     cr_district_id := 1;
     cr_village_id := 1;
     cr_latitude := null;
     cr_longitude := undefined;
     cr_address := "124 Main Street";
     cr_phone := value "";
     cr_family_members := 2;
     cr_monthly_income := undefined;
     cr_house_condition_score := value 0;
     cr_notes := value "" |}.



End sample.

(** Verifications of the sample record, and an authenticated caller. *)
Definition reverify_empty_notes : VerifyHousingRecordInput :=
  {| vf_id := 1; vf_verification_status := VERIFIED; vf_notes := value "" |}.

Definition reverify_rejected : VerifyHousingRecordInput :=
  {| vf_id := 1; vf_verification_status := REJECTED;
     vf_notes := value "Invalid documentation" |}.

Definition admin : Context :=
  {| userId := Some 1; userRole := Some "PUPR_ADMIN"; ipAddress := None |}.

Module backlog_sample.

Definition entry (type : backlog_type) (year month : Z) : CreateBacklogInput :=
  {| cb_district_id := 1;
     cb_village_id := 1;
     cb_backlog_type := type;
     cb_family_count := 25;
     cb_year := year;
     cb_month := month |}.

(** Entries at (2023, 11), (2024, 2) and (2024, 10). *)
Definition across_years : db :=
  after (call_createBacklog (entry NO_HOUSE 2024 10) 1 300)
    (after (call_createBacklog (entry UNINHABITABLE_HOUSE 2024 2) 1 200)
       (after (call_createBacklog (entry NO_HOUSE 2023 11) 1 100) sample.empty_store)).

(** Entries at the months 3, 6 and 9 of 2024. *)
Definition same_year : db :=
  after (call_createBacklog (entry NO_HOUSE 2024 9) 1 300)
    (after (call_createBacklog (entry UNINHABITABLE_HOUSE 2024 6) 1 200)
       (after (call_createBacklog (entry NO_HOUSE 2024 3) 1 100) sample.empty_store)).

(** Entries at (2023, 12), (2024, 6) and (2025, 1). *)
Definition three_years : db :=
  after (call_createBacklog (entry NO_HOUSE 2025 1) 1 300)
    (after (call_createBacklog (entry UNINHABITABLE_HOUSE 2024 6) 1 200)
       (after (call_createBacklog (entry NO_HOUSE 2023 12) 1 100) sample.empty_store)).

End backlog_sample.

(** One entry, at (2025, 6). *)
Definition one_entry_2025 : db :=
  after (call_createBacklog (backlog_sample.entry NO_HOUSE 2025 6) 1 100) sample.empty_store.

Module audit_sample.

(** The seven entries of the security-report test, written at time 1000. *)
Definition seven_entries : db :=
  after_all
    [call_logAuditAction 1 LOGIN "user" None (Some "Successful login") None 1000;
     call_logAuditAction 1 LOGIN "user" None (Some "Failed login attempt") None 1000;
     call_logAuditAction 1 EXPORT "housing_record" None (Some "Exported data") None 1000;
     call_logAuditAction 1 EXPORT "housing_record" None (Some "Exported report") None 1000;
     call_logAuditAction 1 CREATE "housing_record" (Some 1) (Some "Created record") None 1000;
     call_logAuditAction 1 UPDATE "housing_record" (Some 1) (Some "Updated record") None 1000;
     call_logAuditAction 1 DELETE "housing_record" (Some 2) (Some "Deleted record") None 1000]
    createDB.

End audit_sample.

(** * Properties *)

(** ** Rows and queries *)

Lemma with_numbers_id record : with_numbers record = record.
Proof.
  destruct record as [? ? ? ? ? ? ? ? lat lon ? ? ? inc ? ? ? ? ? ? ?].
  unfold with_numbers; simpl.
  destruct lat, lon, inc; reflexivity.
Qed.

Lemma is_empty_false {R} (rows : list R) :
  is_empty rows = false ↔ ∃ r, r ∈ rows.
Proof.
  destruct rows as [|r rows]; simpl; split.
  - discriminate.
  - intros [r Hr]. inversion Hr.
  - intros _. exists r. left.
  - reflexivity.
Qed.

Lemma is_empty_true {R} (rows : list R) :
  is_empty rows = true ↔ rows = [].
Proof. destruct rows; simpl; split; congruence. Qed.

Lemma is_empty_filter_false {R} (P : R → Prop) `{∀ r, Decision (P r)} (rows : list R) :
  is_empty (filter P rows) = false ↔ ∃ r, r ∈ rows ∧ P r.
Proof.
  rewrite is_empty_false. split.
  - intros [r Hr]. apply list_elem_of_filter in Hr. exists r. tauto.
  - intros [r [Hr HP]]. exists r. apply list_elem_of_filter. tauto.
Qed.

Lemma is_empty_filter_true {R} (P : R → Prop) `{∀ r, Decision (P r)} (rows : list R) :
  is_empty (filter P rows) = true ↔ ∀ r, r ∈ rows → ¬ P r.
Proof.
  rewrite is_empty_true. split.
  - intros Hnil r Hr HP. exact (filter_nil_not_elem_of P rows r Hnil HP Hr).
  - intros Hnone. destruct (filter P rows) as [|r rest] eqn:E; [reflexivity|].
    assert (Hin : r ∈ filter P rows) by (rewrite E; left).
    apply list_elem_of_filter in Hin. destruct Hin as [HP Hr].
    destruct (Hnone r Hr HP).
Qed.

(** Unfolding a handler down to its queries. *)
Ltac run :=
  unfold await, select, select_count, throw, resolve, first_row,
    insert_housingRecord, update_housingRecords, delete_housingRecords,
    insert_auditLog, insert_backlog, update_backlogs; simpl.

(** ** What a call of each housing-record handler amounts to *)

Lemma createHousingRecord_Ok input createdBy now st record st' :
  createHousingRecord input createdBy now st = (Ok record, st') ↔
  (∃ d, d ∈ districtsTable st ∧ d_id d = cr_district_id input)
  ∧ (∃ v, v ∈ villagesTable st
          ∧ v_id v = cr_village_id input ∧ v_district_id v = cr_district_id input)
  ∧ (∀ r, r ∈ housingRecordsTable st → hr_nik r ≠ cr_nik input)
  ∧ record = housing_values input createdBy now (housing_records_id_seq st)
  ∧ st' = with_housingRecordsTable (housingRecordsTable st ++ [record])
                                   (housing_records_id_seq st + 1) st.
Proof.
  unfold createHousingRecord. run.
  destruct (is_empty (filter _ (districtsTable st))) eqn:Ed; simpl.
  { rewrite is_empty_filter_true in Ed. split; [discriminate|].
    intros [[d [Hd Hid]] _]. destruct (Ed d Hd Hid). }
  rewrite is_empty_filter_false in Ed.
  destruct (is_empty (filter _ (villagesTable st))) eqn:Ev; simpl.
  { rewrite is_empty_filter_true in Ev. split; [discriminate|].
    intros [_ [[v [Hv Hid]] _]]. destruct (Ev v Hv Hid). }
  rewrite is_empty_filter_false in Ev.
  destruct (is_empty (filter _ (housingRecordsTable st))) eqn:En; simpl.
  - rewrite is_empty_filter_true in En. rewrite with_numbers_id. split.
    + intros [= <- <-]. repeat split; try assumption.
    + intros (_ & _ & _ & -> & ->). reflexivity.
  - rewrite is_empty_filter_false in En. split; [discriminate|].
    intros (_ & _ & Hfree & _). destruct En as [r [Hr Hnik]].
    destruct (Hfree r Hr Hnik).
Qed.

Lemma validate_location_reads input st :
  ∃ outcome, validate_location input st = (outcome, st).
Proof.
  unfold validate_location. run.
  destruct (truthy (up_district_id input) && truthy (up_village_id input)).
  { destruct (is_empty _); eauto. }
  destruct (truthy (up_district_id input)).
  { destruct (is_empty _); eauto. }
  destruct (truthy (up_village_id input)); [|eauto].
  destruct (is_empty _); eauto.
Qed.

Lemma updateHousingRecord_Ok input updatedBy now st record st' :
  updateHousingRecord input updatedBy now st = (Ok record, st') ↔
  ∃ existing rest,
    filter (λ r, hr_id r = up_id input) (housingRecordsTable st) = existing :: rest
    ∧ validate_location input st = (Ok (), st)
    ∧ record = apply_set (updateValues input now) existing
    ∧ st' = with_housingRecordsTable
              (update_row (updateValues input now) (up_id input) <$> housingRecordsTable st)
              (housing_records_id_seq st) st.
Proof.
  unfold updateHousingRecord. run.
  destruct (filter _ (housingRecordsTable st)) as [|existing rest] eqn:Ex; simpl.
  { split; [discriminate|]. intros (? & ? & [=] & _). }
  destruct (validate_location_reads input st) as [[[]|e] ->]; simpl.
  - rewrite Ex. simpl. rewrite with_numbers_id. split.
    + intros [= <- <-]. exists existing, rest. auto.
    + intros (? & ? & [= <- <-] & _ & -> & ->). reflexivity.
  - split; [discriminate|]. intros (? & ? & _ & [=] & _).
Qed.

Lemma verifyHousingRecord_Ok input verifiedBy now st record st' :
  verifyHousingRecord input verifiedBy now st = (Ok record, st') ↔
  ∃ existing rest,
    filter (λ r, hr_id r = vf_id input) (housingRecordsTable st) = existing :: rest
    ∧ record = apply_set (verifyValues input verifiedBy now existing) existing
    ∧ st' = with_housingRecordsTable
              (update_row (verifyValues input verifiedBy now existing) (vf_id input)
                 <$> housingRecordsTable st)
              (housing_records_id_seq st) st.
Proof.
  unfold verifyHousingRecord. run.
  destruct (filter _ (housingRecordsTable st)) as [|existing rest] eqn:Ex; simpl.
  { split; [discriminate|]. intros (? & ? & [=] & _). }
  run. rewrite Ex. simpl. rewrite with_numbers_id. split.
  - intros [= <- <-]. exists existing, rest. auto.
  - intros (? & ? & [= <- <-] & -> & ->). reflexivity.
Qed.

Lemma deleteHousingRecord_Ok id deletedBy st b st' :
  deleteHousingRecord id deletedBy st = (Ok b, st') ↔
  (∃ r, r ∈ housingRecordsTable st ∧ hr_id r = id)
  ∧ b = true
  ∧ st' = with_housingRecordsTable (filter (λ r, hr_id r ≠ id) (housingRecordsTable st))
                                   (housing_records_id_seq st) st.
Proof.
  unfold deleteHousingRecord. run.
  destruct (is_empty (filter _ (housingRecordsTable st))) eqn:Ex; simpl.
  - rewrite is_empty_filter_true in Ex. split; [discriminate|].
    intros [[r [Hr Hid]] _]. destruct (Ex r Hr Hid).
  - rewrite is_empty_filter_false in Ex. split.
    + intros [= <- <-]. auto.
    + intros (_ & -> & ->). reflexivity.
Qed.

Lemma updateHousingCoordinates_Ok id latitude longitude updatedBy now st record st' :
  updateHousingCoordinates id latitude longitude updatedBy now st = (Ok record, st') ↔
  ∃ existing rest,
    filter (λ r, hr_id r = id) (housingRecordsTable st) = existing :: rest
    ∧ record = apply_set (coordinateValues latitude longitude now) existing
    ∧ st' = with_housingRecordsTable
              (update_row (coordinateValues latitude longitude now) id
                 <$> housingRecordsTable st)
              (housing_records_id_seq st) st.
Proof.
  unfold updateHousingCoordinates. run.
  destruct (filter _ (housingRecordsTable st)) as [|existing rest] eqn:Ex; simpl.
  { split; [discriminate|]. intros (? & ? & [=] & _). }
  rewrite Ex. simpl. rewrite with_numbers_id. split.
  - intros [= <- <-]. exists existing, rest. auto.
  - intros (? & ? & [= <- <-] & -> & ->). reflexivity.
Qed.

(** A handler that throws has written nothing. *)
Lemma createHousingRecord_Err input createdBy now st e st' :
  createHousingRecord input createdBy now st = (Err e, st') → st' = st.
Proof.
  unfold createHousingRecord. run.
  repeat (destruct (is_empty _); simpl; try congruence).
Qed.

Lemma updateHousingRecord_Err input updatedBy now st e st' :
  updateHousingRecord input updatedBy now st = (Err e, st') → st' = st.
Proof.
  unfold updateHousingRecord. run.
  destruct (filter _ (housingRecordsTable st)) eqn:Ex; simpl; [congruence|].
  destruct (validate_location_reads input st) as [[[]|e'] ->]; simpl; [|congruence].
  rewrite Ex. simpl. unfold resolve. congruence.
Qed.

Lemma verifyHousingRecord_Err input verifiedBy now st e st' :
  verifyHousingRecord input verifiedBy now st = (Err e, st') → st' = st.
Proof.
  unfold verifyHousingRecord. run.
  destruct (filter _ (housingRecordsTable st)) eqn:Ex; simpl; [congruence|].
  run. rewrite Ex. simpl. unfold resolve. congruence.
Qed.

Lemma deleteHousingRecord_Err id deletedBy st e st' :
  deleteHousingRecord id deletedBy st = (Err e, st') → st' = st.
Proof.
  unfold deleteHousingRecord. run.
  destruct (is_empty _); simpl; congruence.
Qed.

Lemma updateHousingCoordinates_Err id latitude longitude updatedBy now st e st' :
  updateHousingCoordinates id latitude longitude updatedBy now st = (Err e, st') → st' = st.
Proof.
  unfold updateHousingCoordinates. run.
  destruct (filter _ (housingRecordsTable st)) eqn:Ex; simpl; [congruence|].
  rewrite Ex. discriminate.
Qed.

(** ** Creation and falsy optional fields *)

(** C10. Whenever [createHousingRecord] succeeds, the record it returns is the
    row it appended to the table, and in that record a
    [house_condition_score] supplied as 0, which the input schema accepts, is
    stored as [null], and so are a [phone] and [notes] supplied as the empty
    string. *)
Theorem createHousingRecord_falsy_optional_stored_null
    input createdBy now st record st' :
  createHousingRecord input createdBy now st = (Ok record, st') →
  housingRecordsTable st' = housingRecordsTable st ++ [record]
  ∧ (cr_house_condition_score input = value 0 →
       score_schema (cr_house_condition_score input) = true
       ∧ hr_house_condition_score record = None)
  ∧ (cr_phone input = value "" → hr_phone record = None)
  ∧ (cr_notes input = value "" → hr_notes record = None).
Proof.
  intros Hcreate. apply createHousingRecord_Ok in Hcreate.
  destruct Hcreate as (_ & _ & _ & -> & ->). simpl.
  split; [reflexivity|].
  split; [|split]; intros ->; simpl; auto.
Qed.

Lemma createHousingRecord_falsy_optional_stored_null_witness :
  ∃ record st',
    createHousingRecord sample.falsyInput sample.testUser 1000 sample.empty_store
      = (Ok record, st')
    ∧ createHousingRecordInputSchema sample.falsyInput = true
    ∧ hr_house_condition_score record = None
    ∧ hr_phone record = None
    ∧ hr_notes record = None.
Proof.
  eexists _, _. split; [vm_compute; reflexivity|].
  split; [vm_compute; reflexivity|].
  destruct (createHousingRecord_falsy_optional_stored_null
              sample.falsyInput sample.testUser 1000 sample.empty_store _ _ eq_refl)
    as (_ & Hscore & Hphone & Hnotes).
  split; [exact (proj2 (Hscore eq_refl))|].
  split; [exact (Hphone eq_refl)|exact (Hnotes eq_refl)].
Defined.

(** ** Updates and the verification state *)

Lemma hasSignificantChanges_true input :
  hasSignificantChanges input = true ↔ includes_significant_field input.
Proof.
  unfold hasSignificantChanges, includes_significant_field, significantFields.
  cbn [existsb]. unfold input_defined. cbn [String.eqb Ascii.eqb Bool.eqb].
  destruct (up_head_of_household input), (up_housing_status input),
    (up_eligibility_category input), (up_address input), (up_family_members input);
    simpl; split; try (intros _; eauto 6; fail); try discriminate.
  intros [H|[H|[H|[H|H]]]]; by inversion H.
Qed.

Lemma hasSignificantChanges_false input :
  hasSignificantChanges input = false ↔ ¬ includes_significant_field input.
Proof.
  rewrite <- hasSignificantChanges_true. destruct (hasSignificantChanges input); split;
    congruence.
Qed.

Lemma filter_head_elem {R} (P : R → Prop) `{∀ r, Decision (P r)} rows first rest :
  filter P rows = first :: rest → first ∈ rows ∧ P first.
Proof.
  intros E. assert (Hin : first ∈ filter P rows) by (rewrite E; left).
  apply list_elem_of_filter in Hin. tauto.
Qed.

Lemma updateValues_reset input now r :
  hasSignificantChanges input = true →
  verification_state (apply_set (updateValues input now) r) = (PENDING, None, None).
Proof.
  intros Hsig. unfold verification_state, apply_set, updateValues. simpl.
  rewrite Hsig. reflexivity.
Qed.

Lemma updateValues_keep input now r :
  hasSignificantChanges input = false →
  verification_state (apply_set (updateValues input now) r) = verification_state r.
Proof.
  intros Hsig. unfold verification_state, apply_set, updateValues. simpl.
  rewrite Hsig. reflexivity.
Qed.

(** C1. After a successful [updateHousingRecord], if the input includes one of
    head_of_household, housing_status, eligibility_category, address and
    family_members, then the returned record and every stored record with the
    input's id have verification_status PENDING and verified_by and
    verified_at null, whatever they had before; if the input includes none of
    them, no stored record has changed its verification_status, verified_by or
    verified_at, and the returned record carries those of the record that was
    updated. *)
Theorem updateHousingRecord_verification_reset
    input updatedBy now st record st' :
  updateHousingRecord input updatedBy now st = (Ok record, st') →
  (includes_significant_field input →
     verification_state record = (PENDING, None, None)
     ∧ ∀ r', r' ∈ housingRecordsTable st' → hr_id r' = up_id input →
             verification_state r' = (PENDING, None, None))
  ∧ (¬ includes_significant_field input →
     verification_state <$> housingRecordsTable st'
       = verification_state <$> housingRecordsTable st
     ∧ ∃ existing, existing ∈ housingRecordsTable st
                   ∧ hr_id existing = up_id input
                   ∧ verification_state record = verification_state existing).
Proof.
  intros Hupdate. apply updateHousingRecord_Ok in Hupdate.
  destruct Hupdate as (existing & rest & Hexisting & _ & -> & ->).
  apply filter_head_elem in Hexisting. destruct Hexisting as [Hin Hid].
  split.
  - intros Hsig. apply hasSignificantChanges_true in Hsig.
    split; [by apply updateValues_reset|].
    simpl. intros r' Hr' Hid'. apply list_elem_of_fmap in Hr'.
    destruct Hr' as (r & -> & Hr). unfold update_row in *.
    destruct (decide (hr_id r = up_id input)) as [_|Hne].
    + by apply updateValues_reset.
    + destruct (Hne Hid').
  - intros Hsig. apply hasSignificantChanges_false in Hsig. simpl. split.
    + rewrite <- list_fmap_compose. apply list_fmap_ext. intros _ r _. simpl.
      unfold update_row. destruct (decide (hr_id r = up_id input)); [|reflexivity].
      by apply updateValues_keep.
    + exists existing. repeat split; try assumption.
      by apply updateValues_keep.
Qed.

Lemma updateHousingRecord_verification_reset_witness :
  ∃ record st',
    updateHousingRecord (sample.set_housing_status 1 RLH) sample.testUser 3000
      sample.verified_record = (Ok record, st')
    ∧ verification_state <$> housingRecordsTable sample.verified_record
        = [(VERIFIED, Some 1, Some 2000)]
    ∧ verification_state record = (PENDING, None, None).
Proof.
  eexists _, _. split; [vm_compute; reflexivity|].
  split; [vm_compute; reflexivity|].
  refine (proj1 (proj1 (updateHousingRecord_verification_reset
                          (sample.set_housing_status 1 RLH) sample.testUser 3000
                          sample.verified_record _ _ eq_refl) _)).
  right; left. by eexists.
Defined.

(** ** The housing-record table along a run *)

Lemma after_housing_step c st : housing_step (call_time c) st (after c st).
Proof.
  destruct c; simpl.
  - apply housing_same; unfold createDistrict; destruct (is_empty _); reflexivity.
  - apply housing_same; unfold createVillage, insert_village; run;
      repeat (destruct (is_empty _); simpl); reflexivity.
  - destruct (createHousingRecord input createdBy now st) as [[record|e] st'] eqn:E; simpl.
    + apply createHousingRecord_Ok in E. destruct E as (_ & _ & Hfree & -> & ->).
      apply (housing_inserted _ _ _
               (housing_values input createdBy now (housing_records_id_seq st)));
        simpl; auto.
    + apply createHousingRecord_Err in E. subst st'. by apply housing_same.
  - destruct (updateHousingRecord input updatedBy now st) as [[record|e] st'] eqn:E; simpl.
    + apply updateHousingRecord_Ok in E. destruct E as (? & ? & _ & _ & _ & ->).
      by apply (housing_updated _ _ _ (updateValues input now) (up_id input)).
    + apply updateHousingRecord_Err in E. subst st'. by apply housing_same.
  - destruct (verifyHousingRecord input verifiedBy now st) as [[record|e] st'] eqn:E; simpl.
    + apply verifyHousingRecord_Ok in E. destruct E as (existing & ? & _ & _ & ->).
      by apply (housing_updated _ _ _ (verifyValues input verifiedBy now existing)
                  (vf_id input)).
    + apply verifyHousingRecord_Err in E. subst st'. by apply housing_same.
  - destruct (deleteHousingRecord id deletedBy st) as [[b|e] st'] eqn:E; simpl.
    + apply deleteHousingRecord_Ok in E. destruct E as (_ & _ & ->).
      by apply (housing_deleted _ _ _ id).
    + apply deleteHousingRecord_Err in E. subst st'. by apply housing_same.
  - destruct (updateHousingCoordinates id latitude longitude updatedBy now st)
      as [[record|e] st'] eqn:E; simpl.
    + apply updateHousingCoordinates_Ok in E. destruct E as (? & ? & _ & _ & ->).
      by apply (housing_updated _ _ _ (coordinateValues latitude longitude now) id).
    + apply updateHousingCoordinates_Err in E. subst st'. by apply housing_same.
  - apply housing_same; unfold createBacklog; run;
      repeat (destruct (is_empty _); simpl); reflexivity.
  - apply housing_same; unfold updateBacklog; run;
      destruct (filter _ (backlogsTable st)) eqn:Ex; simpl; try reflexivity;
      rewrite Ex; reflexivity.
  - apply housing_same; reflexivity.
Qed.

Lemma update_row_nik u id r : hr_nik (update_row u id r) = hr_nik r.
Proof. unfold update_row. destruct (decide _); reflexivity. Qed.

Lemma update_row_id u id r : hr_id (update_row u id r) = hr_id r.
Proof. unfold update_row. destruct (decide _); reflexivity. Qed.

Lemma fmap_update_row_nik u id (rows : list HousingRecord) :
  hr_nik <$> (update_row u id <$> rows) = hr_nik <$> rows.
Proof.
  rewrite <- list_fmap_compose. apply list_fmap_ext. intros _ r _. apply update_row_nik.
Qed.

Lemma fmap_update_row_id u id (rows : list HousingRecord) :
  hr_id <$> (update_row u id <$> rows) = hr_id <$> rows.
Proof.
  rewrite <- list_fmap_compose. apply list_fmap_ext. intros _ r _. apply update_row_id.
Qed.

Lemma NoDup_fmap_filter {A B} (f : A → B) (P : A → Prop) `{∀ a, Decision (P a)} l :
  NoDup (f <$> l) → NoDup (f <$> filter P l).
Proof.
  induction l as [|a l IH]; simpl; [constructor|].
  rewrite NoDup_cons. intros [Hnotin Hnodup]. rewrite filter_cons.
  destruct (decide (P a)); [|auto].
  simpl. apply NoDup_cons. split; [|auto].
  intros Hin. apply Hnotin. apply list_elem_of_fmap in Hin.
  destruct Hin as (a' & -> & Ha'). apply list_elem_of_filter in Ha'.
  apply list_elem_of_fmap_2. tauto.
Qed.

Lemma housing_step_nik_unique time st st' :
  housing_step time st st' → nik_unique st → nik_unique st'.
Proof.
  unfold nik_unique.
  intros [Hrows _|record Hfree _ _ Hrows _|u id _ Hrows _|id Hrows _] Hinv;
    rewrite Hrows.
  - assumption.
  - rewrite fmap_app. apply NoDup_app. split; [assumption|]. split.
    + intros nik Hin Hnew. simpl in Hnew. apply list_elem_of_singleton in Hnew. subst nik.
      apply list_elem_of_fmap in Hin. destruct Hin as (r & Heq & Hr).
      exact (Hfree r Hr (eq_sym Heq)).
    + simpl. apply NoDup_singleton.
  - rewrite fmap_update_row_nik. assumption.
  - by apply NoDup_fmap_filter.
Qed.

Lemma reachable_nik_unique st : reachable st → nik_unique st.
Proof.
  induction 1 as [|c st _ IH].
  - unfold nik_unique. simpl. constructor.
  - exact (housing_step_nik_unique _ _ _ (after_housing_step c st) IH).
Qed.

Lemma housing_step_id_unique time st st' :
  housing_step time st st' → id_unique st → id_unique st'.
Proof.
  unfold id_unique.
  intros [Hrows Hseq|record _ Hid _ Hrows Hseq|u id _ Hrows Hseq|id Hrows Hseq]
    [Hnodup Hbound];
    rewrite Hrows, Hseq.
  - auto.
  - split.
    + rewrite fmap_app. apply NoDup_app. split; [assumption|]. split.
      * intros i Hin Hnew. simpl in Hnew. apply list_elem_of_singleton in Hnew. subst i.
        apply list_elem_of_fmap in Hin. destruct Hin as (r & Heq & Hr).
        specialize (Hbound r Hr). lia.
      * simpl. apply NoDup_singleton.
    + intros r Hr. apply elem_of_app in Hr. destruct Hr as [Hr|Hr].
      * specialize (Hbound r Hr). lia.
      * apply list_elem_of_singleton in Hr. subst r. lia.
  - split.
    + rewrite fmap_update_row_id. assumption.
    + intros r' Hr'. apply list_elem_of_fmap in Hr'. destruct Hr' as (r & -> & Hr).
      rewrite update_row_id. auto.
  - split.
    + by apply NoDup_fmap_filter.
    + intros r Hr. apply list_elem_of_filter in Hr. apply Hbound. tauto.
Qed.

Lemma reachable_id_unique st : reachable st → id_unique st.
Proof.
  induction 1 as [|c st _ IH].
  - split; simpl; [constructor|]. intros r Hr. inversion Hr.
  - exact (housing_step_id_unique _ _ _ (after_housing_step c st) IH).
Qed.

Lemma reachable_at_reachable clock st : reachable_at clock st → reachable st.
Proof. induction 1; [constructor|by constructor|assumption]. Qed.

Lemma housing_step_updated_before time clock st st' :
  housing_step time st st' →
  (∀ now, time = Some now → clock ≤ now) →
  updated_before clock st → updated_before (default clock time) st'.
Proof.
  unfold updated_before.
  intros [Hrows _|record _ _ Hat Hrows _|u id Hat Hrows _|id Hrows _] Htime Hinv r;
    rewrite Hrows.
  - intros Hr. specialize (Hinv r Hr).
    destruct time as [now|]; simpl; [specialize (Htime now eq_refl)|]; lia.
  - subst time. simpl. specialize (Htime _ eq_refl).
    intros Hr. apply elem_of_app in Hr. destruct Hr as [Hr|Hr].
    + specialize (Hinv r Hr). lia.
    + apply list_elem_of_singleton in Hr. subst r. lia.
  - intros Hr. apply list_elem_of_fmap in Hr. destruct Hr as (r0 & -> & Hr0).
    specialize (Hinv r0 Hr0). unfold update_row.
    destruct (decide _); simpl; rewrite ?Hat;
      (destruct time as [now|]; simpl; [specialize (Htime now eq_refl)|]; lia).
  - intros Hr. apply list_elem_of_filter in Hr. destruct Hr as [_ Hr].
    specialize (Hinv r Hr).
    destruct time as [now|]; simpl; [specialize (Htime now eq_refl)|]; lia.
Qed.

Lemma reachable_at_updated_before clock st : reachable_at clock st → updated_before clock st.
Proof.
  induction 1 as [clock|clock c st _ IH Htime|clock clock' st _ IH Hle].
  - intros r Hr. inversion Hr.
  - exact (housing_step_updated_before _ _ _ _ (after_housing_step c st) Htime IH).
  - intros r Hr. specialize (IH r Hr). lia.
Qed.

(** ** Uniqueness of the identity number *)

(** C3. At every state reachable from the empty database by the handlers, two
    housing records at different positions of the table have different nik;
    and [createHousingRecord] with a nik that a stored record already has
    throws and leaves the database as it was, the error being
    'NIK already exists' whenever the district and village checks, which run
    first, pass. *)
Theorem nik_unique_at_all_reachable_states :
  (∀ st, reachable st →
     ∀ i j r1 r2,
       housingRecordsTable st !! i = Some r1 →
       housingRecordsTable st !! j = Some r2 →
       hr_nik r1 = hr_nik r2 → i = j)
  ∧ (∀ input createdBy now st,
       (∃ r, r ∈ housingRecordsTable st ∧ hr_nik r = cr_nik input) →
       (∃ e, createHousingRecord input createdBy now st = (Err e, st))
       ∧ ((∃ d, d ∈ districtsTable st ∧ d_id d = cr_district_id input) →
          (∃ v, v ∈ villagesTable st ∧ v_id v = cr_village_id input
                ∧ v_district_id v = cr_district_id input) →
          createHousingRecord input createdBy now st = (Err NIK_already_exists, st))).
Proof.
  split.
  - intros st Hreach i j r1 r2 Hi Hj Hnik.
    pose proof (reachable_nik_unique st Hreach) as Hnodup. unfold nik_unique in Hnodup.
    rewrite NoDup_alt in Hnodup. apply (Hnodup i j (hr_nik r1)).
    + rewrite list_lookup_fmap, Hi. reflexivity.
    + rewrite list_lookup_fmap, Hj, Hnik. reflexivity.
  - intros input createdBy now st [r [Hr Hnik]]. split.
    + destruct (createHousingRecord input createdBy now st) as [[record|e] st'] eqn:E.
      * apply createHousingRecord_Ok in E. destruct E as (_ & _ & Hfree & _).
        destruct (Hfree r Hr Hnik).
      * apply createHousingRecord_Err in E. subst st'. by exists e.
    + intros Hd Hv. unfold createHousingRecord. run.
      rewrite <- is_empty_filter_false in Hd. rewrite Hd. simpl.
      assert (Hv' : is_empty (filter (λ v, v_id v = cr_village_id input
                                           ∧ v_district_id v = cr_district_id input)
                                (villagesTable st)) = false).
      { apply is_empty_filter_false. destruct Hv as [v Hv]. exists v. tauto. }
      rewrite Hv'. simpl.
      assert (Hn : is_empty (filter (λ r, hr_nik r = cr_nik input)
                               (housingRecordsTable st)) = false).
      { apply is_empty_filter_false. by exists r. }
      rewrite Hn. reflexivity.
Qed.

Lemma nik_unique_at_all_reachable_states_witness :
  reachable sample.one_record
  ∧ (∃ r, r ∈ housingRecordsTable sample.one_record
          ∧ hr_nik r = cr_nik sample.testInput)
  ∧ createHousingRecord sample.testInput sample.testUser 5000 sample.one_record
      = (Err NIK_already_exists, sample.one_record).
Proof.
  assert (Hreach : reachable sample.one_record) by (repeat constructor).
  assert (Hused : ∃ r, r ∈ housingRecordsTable sample.one_record
                       ∧ hr_nik r = cr_nik sample.testInput).
  { eexists. split; [left|reflexivity]. }
  split; [assumption|]. split; [assumption|].
  apply (proj2 (proj2 nik_unique_at_all_reachable_states
                  sample.testInput sample.testUser 5000 sample.one_record Hused)).
  - eexists. split; [left|reflexivity].
  - eexists. split; [left|]. split; reflexivity.
Defined.

(** ** Villages and their districts *)

Lemma truthy_Some {A} `{Truthy A} (a : A) : truthy (Some a) = truthy a.
Proof. reflexivity. Qed.

Lemma truthy_None {A} `{Truthy A} : truthy (None : option A) = false.
Proof. reflexivity. Qed.

Lemma validate_location_Ok input st :
  validate_location input st = (Ok (), st) ↔
  match up_district_id input, up_village_id input with
  | Some d, Some v =>
      if truthy d && truthy v
      then ∃ row, row ∈ villagesTable st ∧ v_id row = v ∧ v_district_id row = d
      else if truthy d then ∃ row, row ∈ districtsTable st ∧ d_id row = d
      else if truthy v then ∃ row, row ∈ villagesTable st ∧ v_id row = v
      else True
  | Some d, None =>
      if truthy d then ∃ row, row ∈ districtsTable st ∧ d_id row = d else True
  | None, Some v =>
      if truthy v then ∃ row, row ∈ villagesTable st ∧ v_id row = v else True
  | None, None => True
  end.
Proof.
  unfold validate_location. run.
  destruct (up_district_id input) as [d|], (up_village_id input) as [v|];
    rewrite ?truthy_Some, ?truthy_None; simpl;
    repeat (match goal with
            | |- context [if truthy ?x then _ else _] => destruct (truthy x); simpl
            end);
    try tauto;
    (destruct (is_empty _) eqn:E;
     [ rewrite is_empty_filter_true in E; split; [discriminate|];
       intros (row & Hrow & Hrest); destruct (E row Hrow);
       intuition congruence
     | rewrite is_empty_filter_false in E; split; [|reflexivity];
       intros _; destruct E as (row & Hrow & Hrest); exists row;
       intuition congruence ]).
Qed.

Lemma truthy_number_true (n : Z) : truthy n = true ↔ n ≠ 0.
Proof.
  unfold truthy, truthy_number. rewrite negb_true_iff, Z.eqb_neq. reflexivity.
Qed.

(** C4, as the specification states it, fails: an update that supplies only
    [district_id] is checked against the districts alone, and moves a record
    whose village belongs to district 1 to district 2. Both states are
    reachable, and the first one satisfies the invariant. *)
Lemma update_district_alone_breaks_village_invariant :
  reachable sample.one_record
  ∧ villages_consistent sample.one_record
  ∧ ∃ record st',
      updateHousingRecord (sample.set_district 1 2) sample.testUser 3000 sample.one_record
        = (Ok record, st')
      ∧ reachable st'
      ∧ ¬ village_in_district st' record
      ∧ ¬ villages_consistent st'.
Proof.
  assert (Hreach : reachable sample.one_record) by (repeat constructor).
  split; [assumption|].
  split; [apply (bool_decide_unpack _); vm_compute; exact I|].
  eexists _, _. split; [vm_compute; reflexivity|].
  split.
  - exact (reachable_after
             (call_updateHousingRecord (sample.set_district 1 2) sample.testUser 3000)
             sample.one_record Hreach).
  - split; apply (bool_decide_unpack _); vm_compute; exact I.
Qed.

Lemma village_in_district_iff st r :
  village_in_district st r ↔
  ∃ v, v ∈ villagesTable st ∧ v_id v = hr_village_id r ∧ v_district_id v = hr_district_id r.
Proof. unfold village_in_district. apply Exists_exists. Qed.

(** C4, amended. [createHousingRecord], and an [updateHousingRecord] that
    supplies both a non-zero [district_id] and a non-zero [village_id], succeed
    only with a village of that district: the record they return has its
    village in its district, and they preserve the invariant that every stored
    record has. An update that supplies only a non-zero [district_id] succeeds
    exactly when that district exists, and stores it next to the record's
    unchanged [village_id]; one that supplies only a non-zero [village_id]
    succeeds exactly when that village exists, and stores it next to the
    record's unchanged [district_id]. *)
Theorem village_district_checks :
  (∀ input createdBy now st record st',
     createHousingRecord input createdBy now st = (Ok record, st') →
     village_in_district st' record
     ∧ (villages_consistent st → villages_consistent st'))
  ∧ (∀ input updatedBy now st record st' d v,
       up_district_id input = Some d → up_village_id input = Some v →
       d ≠ 0 → v ≠ 0 →
       updateHousingRecord input updatedBy now st = (Ok record, st') →
       village_in_district st' record
       ∧ (villages_consistent st → villages_consistent st'))
  ∧ (∀ input updatedBy now st existing d,
       up_district_id input = Some d → up_village_id input = None → d ≠ 0 →
       head (filter (λ r, hr_id r = up_id input) (housingRecordsTable st)) = Some existing →
       ((∃ record st', updateHousingRecord input updatedBy now st = (Ok record, st'))
        ↔ ∃ row, row ∈ districtsTable st ∧ d_id row = d)
       ∧ ∀ record st',
           updateHousingRecord input updatedBy now st = (Ok record, st') →
           hr_district_id record = d ∧ hr_village_id record = hr_village_id existing)
  ∧ (∀ input updatedBy now st existing v,
       up_district_id input = None → up_village_id input = Some v → v ≠ 0 →
       head (filter (λ r, hr_id r = up_id input) (housingRecordsTable st)) = Some existing →
       ((∃ record st', updateHousingRecord input updatedBy now st = (Ok record, st'))
        ↔ ∃ row, row ∈ villagesTable st ∧ v_id row = v)
       ∧ ∀ record st',
           updateHousingRecord input updatedBy now st = (Ok record, st') →
           hr_village_id record = v ∧ hr_district_id record = hr_district_id existing).
Proof.
  split; [|split; [|split]].
  - intros input createdBy now st record st' Hcreate.
    apply createHousingRecord_Ok in Hcreate.
    destruct Hcreate as (_ & Hvillage & _ & -> & ->).
    assert (Hnew : village_in_district st
                     (housing_values input createdBy now (housing_records_id_seq st)))
      by (by apply village_in_district_iff).
    split; [exact Hnew|].
    unfold villages_consistent. simpl. intros Hinv. apply Forall_app. split.
    + exact Hinv.
    + by apply Forall_singleton.
  - intros input updatedBy now st record st' d v Hd Hv Hd0 Hv0 Hupdate.
    apply updateHousingRecord_Ok in Hupdate.
    destruct Hupdate as (existing & rest & _ & Hvalid & -> & ->).
    apply validate_location_Ok in Hvalid. rewrite Hd, Hv in Hvalid.
    apply truthy_number_true in Hd0, Hv0. rewrite Hd0, Hv0 in Hvalid. simpl in Hvalid.
    assert (Hset : ∀ r, village_in_district st (apply_set (updateValues input now) r)).
    { intros r. apply village_in_district_iff. simpl. rewrite Hd, Hv. exact Hvalid. }
    split; [apply Hset|].
    unfold villages_consistent. simpl. intros Hinv. apply Forall_fmap.
    eapply Forall_impl; [exact Hinv|]. intros r Hr. simpl. unfold update_row.
    destruct (decide _); [apply Hset|exact Hr].
  - intros input updatedBy now st existing d Hd Hv Hd0 Hexisting.
    apply truthy_number_true in Hd0.
    destruct (filter _ (housingRecordsTable st)) as [|first rest] eqn:Ex;
      [discriminate|]. injection Hexisting as ->.
    split.
    + split.
      * intros (record & st' & Hupdate). apply updateHousingRecord_Ok in Hupdate.
        destruct Hupdate as (_ & _ & _ & Hvalid & _).
        apply validate_location_Ok in Hvalid. rewrite Hd, Hv, Hd0 in Hvalid. exact Hvalid.
      * intros Hdistrict. eexists _, _. apply updateHousingRecord_Ok.
        exists existing, rest. split; [exact Ex|]. split; [|split; reflexivity].
        apply validate_location_Ok. rewrite Hd, Hv, Hd0. exact Hdistrict.
    + intros record st' Hupdate. apply updateHousingRecord_Ok in Hupdate.
      destruct Hupdate as (existing' & rest' & Ex' & _ & -> & _).
      rewrite Ex in Ex'. injection Ex' as <- <-. simpl. rewrite Hd, Hv. auto.
  - intros input updatedBy now st existing v Hd Hv Hv0 Hexisting.
    apply truthy_number_true in Hv0.
    destruct (filter _ (housingRecordsTable st)) as [|first rest] eqn:Ex;
      [discriminate|]. injection Hexisting as ->.
    split.
    + split.
      * intros (record & st' & Hupdate). apply updateHousingRecord_Ok in Hupdate.
        destruct Hupdate as (_ & _ & _ & Hvalid & _).
        apply validate_location_Ok in Hvalid. rewrite Hd, Hv, Hv0 in Hvalid. exact Hvalid.
      * intros Hvillage. eexists _, _. apply updateHousingRecord_Ok.
        exists existing, rest. split; [exact Ex|]. split; [|split; reflexivity].
        apply validate_location_Ok. rewrite Hd, Hv, Hv0. exact Hvillage.
    + intros record st' Hupdate. apply updateHousingRecord_Ok in Hupdate.
      destruct Hupdate as (existing' & rest' & Ex' & _ & -> & _).
      rewrite Ex in Ex'. injection Ex' as <- <-. simpl. rewrite Hd, Hv. auto.
Qed.

Lemma village_district_checks_witness :
  ∃ record st',
    updateHousingRecord (sample.set_district 1 2) sample.testUser 3000 sample.one_record
      = (Ok record, st')
    ∧ hr_district_id record = 2
    ∧ hr_village_id record = 1.
Proof.
  eexists _, _. split; [vm_compute; reflexivity|].
  destruct (proj1 (proj2 (proj2 village_district_checks))
              (sample.set_district 1 2) sample.testUser 3000 sample.one_record _ 2
              eq_refl eq_refl ltac:(discriminate) eq_refl) as [_ Hstored].
  exact (Hstored _ _ eq_refl).
Defined.

(** ** Partial updates *)

(** What [updateHousingRecord] does hold to: a field that is absent keeps its
    value, a field that carries a value takes it, [phone], [notes] and
    [house_condition_score] supplied as [null] are cleared, and [updated_at]
    is the time of the call. *)
Lemma updateHousingRecord_fields input updatedBy now st record st' :
  updateHousingRecord input updatedBy now st = (Ok record, st') →
  ∃ existing,
    head (filter (λ r, hr_id r = up_id input) (housingRecordsTable st)) = Some existing
    ∧ record ∈ housingRecordsTable st'
    ∧ hr_id record = hr_id existing
    ∧ hr_nik record = hr_nik existing
    ∧ hr_created_by record = hr_created_by existing
    ∧ hr_created_at record = hr_created_at existing
    ∧ hr_updated_at record = now
    ∧ hr_head_of_household record
        = default (hr_head_of_household existing) (up_head_of_household input)
    ∧ hr_housing_status record = default (hr_housing_status existing) (up_housing_status input)
    ∧ hr_eligibility_category record
        = default (hr_eligibility_category existing) (up_eligibility_category input)
    ∧ hr_district_id record = default (hr_district_id existing) (up_district_id input)
    ∧ hr_village_id record = default (hr_village_id existing) (up_village_id input)
    ∧ hr_address record = default (hr_address existing) (up_address input)
    ∧ hr_family_members record = default (hr_family_members existing) (up_family_members input)
    ∧ hr_phone record = assign_nullable (up_phone input) (hr_phone existing)
    ∧ hr_notes record = assign_nullable (up_notes input) (hr_notes existing)
    ∧ hr_house_condition_score record
        = assign_nullable (up_house_condition_score input) (hr_house_condition_score existing)
    ∧ hr_latitude record = default (hr_latitude existing)
                             (Some <$> optional_chain Number_toString (up_latitude input))
    ∧ hr_longitude record = default (hr_longitude existing)
                              (Some <$> optional_chain Number_toString (up_longitude input))
    ∧ hr_monthly_income record
        = default (hr_monthly_income existing)
            (Some <$> optional_chain Number_toString (up_monthly_income input)).
Proof.
  intros Hupdate. apply updateHousingRecord_Ok in Hupdate.
  destruct Hupdate as (existing & rest & Hexisting & _ & -> & ->).
  exists existing. rewrite Hexisting. split; [reflexivity|].
  apply filter_head_elem in Hexisting. destruct Hexisting as [Hin Hid].
  split.
  { simpl. apply list_elem_of_fmap. exists existing. split; [|assumption].
    unfold update_row. by destruct (decide _). }
  simpl. unfold assign, default.
  repeat split;
    try (match goal with
         | |- context [match ?f input with _ => _ end] => destruct (f input)
         | |- context [if defined (?f input) then _ else _] => destruct (f input)
         end);
    reflexivity.
Qed.

(** C5 fails on the code for the three numeric columns: [null?.toString()] is
    [undefined], which [.set(..)] skips. Updating the sample record, whose
    latitude is set, with [latitude: null] succeeds and leaves the latitude as
    it was, in the returned record and in the table. *)
Theorem updateHousingRecord_null_latitude_not_cleared :
  ∃ record st',
    updateHousingRecord (sample.set_latitude_null 1) sample.testUser 3000 sample.one_record
      = (Ok record, st')
    ∧ up_latitude (sample.set_latitude_null 1) = null
    ∧ hr_latitude <$> housingRecordsTable sample.one_record = [Some (-612345600)]
    ∧ hr_latitude record = Some (-612345600)
    ∧ hr_latitude <$> housingRecordsTable st' = [Some (-612345600)].
Proof.
  eexists _, _. split; [vm_compute; reflexivity|].
  repeat split; vm_compute; reflexivity.
Qed.

(** The same holds of every record and of the three columns. *)
Lemma updateHousingRecord_null_numeric_kept input updatedBy now st record st' :
  updateHousingRecord input updatedBy now st = (Ok record, st') →
  ∃ existing,
    head (filter (λ r, hr_id r = up_id input) (housingRecordsTable st)) = Some existing
    ∧ (up_latitude input = null → hr_latitude record = hr_latitude existing)
    ∧ (up_longitude input = null → hr_longitude record = hr_longitude existing)
    ∧ (up_monthly_income input = null →
         hr_monthly_income record = hr_monthly_income existing).
Proof.
  intros Hupdate. apply updateHousingRecord_fields in Hupdate.
  destruct Hupdate as (existing & Hexisting & Hfields). exists existing.
  split; [assumption|].
  destruct Hfields as (_ & _ & _ & _ & _ & _ & _ & _ & _ & _ & _ & _ & _ & _ & _ & _
                       & Hlat & Hlon & Hinc).
  rewrite Hlat, Hlon, Hinc. repeat split; intros ->; reflexivity.
Qed.

(** ** Verification *)

Lemma filter_key_unique {R} (key : R → Z) (rows : list R) (row : R) :
  NoDup (key <$> rows) → row ∈ rows →
  filter (λ r, key r = key row) rows = [row].
Proof.
  induction rows as [|r rows IH]; intros Hnodup Hin.
  - inversion Hin.
  - simpl in Hnodup. apply NoDup_cons in Hnodup. destruct Hnodup as [Hnotin Hnodup].
    rewrite filter_cons. apply elem_of_cons in Hin. destruct Hin as [->|Hin].
    + destruct (decide (key r = key r)) as [_|Hne]; [|congruence]. f_equal.
      destruct (filter (λ r0, key r0 = key r) rows) as [|r' rest] eqn:E; [reflexivity|].
      apply filter_head_elem in E. destruct E as [Hr' Hkey].
      destruct Hnotin. rewrite <- Hkey. by apply list_elem_of_fmap_2.
    + destruct (decide (key r = key row)) as [Hkey|_]; [|auto].
      destruct Hnotin. rewrite Hkey. by apply list_elem_of_fmap_2.
Qed.

(** C6, as the specification states it, fails: notes provided as the empty
    string do not become the record's notes; the notes stored before stay. *)
Lemma verifyHousingRecord_empty_notes_not_stored :
  ∃ record st',
    verifyHousingRecord reverify_empty_notes sample.testUser 2000 sample.one_record
      = (Ok record, st')
    ∧ vf_notes reverify_empty_notes = value ""
    ∧ hr_notes record = Some "Test notes"
    ∧ hr_notes record ≠ Some "".
Proof.
  eexists _, _. split; [vm_compute; reflexivity|].
  split; [reflexivity|]. split; [reflexivity|]. discriminate.
Qed.

(** C6, amended. At every state reached by calls whose clock readings never go
    back, and for every stored housing record, a [verifyHousingRecord] made at
    a reading not before the last call succeeds, whatever the record's
    verification status was, and the record it returns and stores has the
    requested verification_status, verified_by the verifier, and verified_at
    the time of the call, which is not before the record's prior updated_at.
    If notes is provided as a non-empty string the record's notes become
    exactly that value; if it is absent, null or the empty string the prior
    notes are kept. *)
Theorem verifyHousingRecord_sets_verification
    input verifiedBy now clock st existing :
  reachable_at clock st →
  clock ≤ now →
  existing ∈ housingRecordsTable st →
  hr_id existing = vf_id input →
  ∃ record st',
    verifyHousingRecord input verifiedBy now st = (Ok record, st')
    ∧ record ∈ housingRecordsTable st'
    ∧ hr_id record = vf_id input
    ∧ hr_verification_status record = vf_verification_status input
    ∧ hr_verified_by record = Some verifiedBy
    ∧ hr_verified_at record = Some now
    ∧ hr_updated_at existing ≤ now
    ∧ (∀ notes, vf_notes input = value notes → notes ≠ "" →
                hr_notes record = Some notes)
    ∧ (vf_notes input = undefined ∨ vf_notes input = null ∨ vf_notes input = value "" →
       hr_notes record = hr_notes existing).
Proof.
  intros Hreach Hclock Hin Hid.
  pose proof (reachable_at_updated_before _ _ Hreach existing Hin) as Hupdated.
  apply reachable_at_reachable, reachable_id_unique in Hreach. destruct Hreach as [Hnodup _].
  pose proof (filter_key_unique hr_id _ _ Hnodup Hin) as Hfilter. rewrite Hid in Hfilter.
  eexists _, _. split.
  { apply verifyHousingRecord_Ok. exists existing, []. split; [exact Hfilter|].
    split; reflexivity. }
  split.
  { simpl. apply list_elem_of_fmap. exists existing. split; [|assumption].
    unfold update_row. by destruct (decide _). }
  simpl. repeat split; try assumption.
  - lia.
  - intros notes -> Hnotes. simpl.
    assert (Htruthy : truthy notes = true).
    { unfold truthy, truthy_string. apply negb_true_iff. by apply String.eqb_neq. }
    rewrite Htruthy. reflexivity.
  - intros [->|[->| ->]]; simpl; by destruct (hr_notes existing).
Qed.

Lemma sample_reachable_at : reachable_at 2000 sample.verified_record.
Proof.
  assert (H0 : reachable_at 0 sample.empty_store).
  { unfold sample.empty_store.
    repeat (match goal with
            | |- reachable_at 0 (after ?c ?st) =>
                apply (reachable_at_after 0 c st); [|discriminate]
            end).
    constructor. }
  assert (H1 : reachable_at 1000 sample.one_record).
  { apply (reachable_at_after 0 (call_createHousingRecord sample.testInput sample.testUser 1000)
             sample.empty_store H0).
    intros now [= <-]. lia. }
  refine (reachable_at_after 1000 (call_verifyHousingRecord _ sample.testUser 2000)
            sample.one_record H1 _).
  intros now [= <-]. lia.
Qed.

Lemma verifyHousingRecord_sets_verification_witness :
  hr_verification_status <$> housingRecordsTable sample.verified_record = [VERIFIED]
  ∧ ∃ record st',
      verifyHousingRecord reverify_rejected 7 2500 sample.verified_record = (Ok record, st')
      ∧ hr_verification_status record = REJECTED
      ∧ hr_verified_by record = Some 7
      ∧ hr_verified_at record = Some 2500
      ∧ hr_notes record = Some "Invalid documentation".
Proof.
  split; [vm_compute; reflexivity|].
  assert (Hin : ∃ existing, existing ∈ housingRecordsTable sample.verified_record
                            ∧ hr_id existing = 1).
  { eexists. split; [left|reflexivity]. }
  destruct Hin as (existing & Hin & Hid).
  destruct (verifyHousingRecord_sets_verification reverify_rejected 7 2500 2000
              sample.verified_record existing sample_reachable_at ltac:(lia) Hin Hid)
    as (record & st' & Hverify & _ & _ & Hstatus & Hby & Hat & _ & Hnotes & _).
  exists record, st'. repeat split; try assumption.
  apply Hnotes; [reflexivity|discriminate].
Defined.

(** ** The audit log and the housing-record operations *)

(** C2, as the specification states it, fails: the [create] procedure of the
    router succeeds on the sample input and the audit log is still empty. *)
Lemma housingRecords_create_emits_no_audit_entry :
  ∃ record st',
    housingRecords.create admin sample.testInput 1000 sample.empty_store = (Ok record, st')
    ∧ auditLogsTable st' = []
    ∧ ¬ one_audit_entry_emitted sample.empty_store st' CREATE (hr_id record).
Proof.
  eexists _, _. split; [vm_compute; reflexivity|].
  split; [reflexivity|].
  intros (entry & Hlog & _). vm_compute in Hlog. discriminate.
Qed.

Lemma createHousingRecord_audit input createdBy now st :
  auditLogsTable (createHousingRecord input createdBy now st).2 = auditLogsTable st.
Proof.
  destruct (createHousingRecord input createdBy now st) as [[record|e] st'] eqn:E; simpl.
  - apply createHousingRecord_Ok in E. by destruct E as (_ & _ & _ & _ & ->).
  - apply createHousingRecord_Err in E. by subst.
Qed.

Lemma updateHousingRecord_audit input updatedBy now st :
  auditLogsTable (updateHousingRecord input updatedBy now st).2 = auditLogsTable st.
Proof.
  destruct (updateHousingRecord input updatedBy now st) as [[record|e] st'] eqn:E; simpl.
  - apply updateHousingRecord_Ok in E. by destruct E as (? & ? & _ & _ & _ & ->).
  - apply updateHousingRecord_Err in E. by subst.
Qed.

Lemma verifyHousingRecord_audit input verifiedBy now st :
  auditLogsTable (verifyHousingRecord input verifiedBy now st).2 = auditLogsTable st.
Proof.
  destruct (verifyHousingRecord input verifiedBy now st) as [[record|e] st'] eqn:E; simpl.
  - apply verifyHousingRecord_Ok in E. by destruct E as (? & ? & _ & _ & ->).
  - apply verifyHousingRecord_Err in E. by subst.
Qed.

Lemma deleteHousingRecord_audit id deletedBy st :
  auditLogsTable (deleteHousingRecord id deletedBy st).2 = auditLogsTable st.
Proof.
  destruct (deleteHousingRecord id deletedBy st) as [[b|e] st'] eqn:E; simpl.
  - apply deleteHousingRecord_Ok in E. by destruct E as (_ & _ & ->).
  - apply deleteHousingRecord_Err in E. by subst.
Qed.

Lemma protectedProcedure_audit {A} ctx (next : Z → handler A) st :
  (∀ userId, auditLogsTable (next userId st).2 = auditLogsTable st) →
  auditLogsTable (protectedProcedure ctx next st).2 = auditLogsTable st.
Proof.
  intros Hnext. unfold protectedProcedure.
  destruct (userId ctx) as [u|]; [|reflexivity].
  destruct (truthy u); [apply Hnext|reflexivity].
Qed.

(** C2, amended. Whether they succeed or throw, [createHousingRecord],
    [updateHousingRecord], [verifyHousingRecord] and [deleteHousingRecord],
    called directly or through their router procedures, leave the audit log
    as it was: they emit no entry. The entry of an operation is written when
    the caller calls [logAuditAction] after it, which appends exactly one
    entry carrying the user, action and resource type it is given, and the
    resource id it is given when that is not 0. *)
Theorem housing_mutations_leave_audit_log :
  (∀ input caller now st,
     auditLogsTable (createHousingRecord input caller now st).2 = auditLogsTable st)
  ∧ (∀ input caller now st,
       auditLogsTable (updateHousingRecord input caller now st).2 = auditLogsTable st)
  ∧ (∀ input caller now st,
       auditLogsTable (verifyHousingRecord input caller now st).2 = auditLogsTable st)
  ∧ (∀ id caller st,
       auditLogsTable (deleteHousingRecord id caller st).2 = auditLogsTable st)
  ∧ (∀ ctx input now st,
       auditLogsTable (housingRecords.create ctx input now st).2 = auditLogsTable st)
  ∧ (∀ ctx input now st,
       auditLogsTable (housingRecords.update ctx input now st).2 = auditLogsTable st)
  ∧ (∀ ctx input now st,
       auditLogsTable (housingRecords.verify ctx input now st).2 = auditLogsTable st)
  ∧ (∀ ctx id st,
       auditLogsTable (housingRecords.delete ctx id st).2 = auditLogsTable st)
  ∧ (∀ user action resourceType resourceId details ipAddress now st,
       resourceId ≠ 0 →
       ∃ entry st',
         logAuditAction user action resourceType (Some resourceId) details ipAddress now st
           = (Ok entry, st')
         ∧ auditLogsTable st' = auditLogsTable st ++ [entry]
         ∧ al_user_id entry = user
         ∧ al_action entry = action
         ∧ al_resource_type entry = resourceType
         ∧ al_resource_id entry = Some resourceId).
Proof.
  repeat split.
  - apply createHousingRecord_audit.
  - apply updateHousingRecord_audit.
  - apply verifyHousingRecord_audit.
  - apply deleteHousingRecord_audit.
  - intros. apply protectedProcedure_audit. intros u. unfold parsed.
    destruct (createHousingRecordInputSchema input);
      [apply createHousingRecord_audit|reflexivity].
  - intros. apply protectedProcedure_audit. intros u. unfold parsed.
    destruct (updateHousingRecordInputSchema input);
      [apply updateHousingRecord_audit|reflexivity].
  - intros. apply protectedProcedure_audit. intros u. apply verifyHousingRecord_audit.
  - intros. apply protectedProcedure_audit. intros u. apply deleteHousingRecord_audit.
  - intros user action resourceType resourceId details ipAddress now st Hid.
    eexists _, _. split; [reflexivity|]. simpl.
    apply truthy_number_true in Hid. rewrite Hid. repeat split.
Qed.

Lemma housing_mutations_leave_audit_log_witness :
  ∃ record st' entry st'',
    housingRecords.create admin sample.testInput 1000 sample.empty_store = (Ok record, st')
    ∧ auditLogsTable st' = auditLogsTable sample.empty_store
    ∧ logAuditAction 1 CREATE "housing_record" (Some (hr_id record)) None None 1001 st'
        = (Ok entry, st'')
    ∧ one_audit_entry_emitted st' st'' CREATE (hr_id record).
Proof.
  destruct housing_mutations_leave_audit_log
    as (_ & _ & _ & _ & Hcreate & _ & _ & _ & Hlog).
  eexists _, _. eexists _, _.
  split; [vm_compute; reflexivity|].
  split; [exact (Hcreate admin sample.testInput 1000 sample.empty_store)|].
  split; [vm_compute; reflexivity|].
  destruct (Hlog 1 CREATE "housing_record" 1 None None 1001
              (housingRecords.create admin sample.testInput 1000 sample.empty_store).2
              ltac:(discriminate))
    as (entry & st'' & Heq & Happend & _ & Haction & Htype & Hid).
  exists entry. injection Heq as <- <-. repeat split; assumption.
Defined.

(** ** Backlogs *)

Lemma backlog_key_eq b input :
  (bl_district_id b = cb_district_id input
   ∧ bl_village_id b = cb_village_id input
   ∧ bl_backlog_type b = cb_backlog_type input
   ∧ bl_year b = cb_year input
   ∧ bl_month b = cb_month input)
  ↔ backlog_key b = input_key input.
Proof.
  unfold backlog_key, input_key. split.
  - intros (-> & -> & -> & -> & ->). reflexivity.
  - intros [= -> -> -> -> ->]. auto.
Qed.

Lemma createBacklog_Ok input createdBy now st entry st' :
  createBacklog input createdBy now st = (Ok entry, st') ↔
  (∃ d, d ∈ districtsTable st ∧ d_id d = cb_district_id input)
  ∧ (∃ v, v ∈ villagesTable st
          ∧ v_id v = cb_village_id input ∧ v_district_id v = cb_district_id input)
  ∧ (∀ b, b ∈ backlogsTable st → backlog_key b ≠ input_key input)
  ∧ entry = backlog_values input createdBy now (backlogs_id_seq st)
  ∧ st' = with_backlogsTable (backlogsTable st ++ [entry]) (backlogs_id_seq st + 1) st.
Proof.
  unfold createBacklog. run.
  destruct (is_empty (filter _ (districtsTable st))) eqn:Ed; simpl.
  { rewrite is_empty_filter_true in Ed. split; [discriminate|].
    intros [[d [Hd Hid]] _]. destruct (Ed d Hd Hid). }
  rewrite is_empty_filter_false in Ed.
  destruct (is_empty (filter _ (villagesTable st))) eqn:Ev; simpl.
  { rewrite is_empty_filter_true in Ev. split; [discriminate|].
    intros [_ [[v [Hv Hid]] _]]. destruct (Ev v Hv Hid). }
  rewrite is_empty_filter_false in Ev.
  destruct (is_empty (filter _ (backlogsTable st))) eqn:Eb; simpl.
  - rewrite is_empty_filter_true in Eb. split.
    + intros [= <- <-]. repeat split; try assumption.
      intros b Hb Hkey. apply (Eb b Hb). by apply backlog_key_eq.
    + intros (_ & _ & _ & -> & ->). reflexivity.
  - rewrite is_empty_filter_false in Eb. split; [discriminate|].
    intros (_ & _ & Hfree & _). destruct Eb as [b [Hb Hkey]].
    exfalso. apply (Hfree b Hb). by apply backlog_key_eq.
Qed.

Lemma createBacklog_Err input createdBy now st e st' :
  createBacklog input createdBy now st = (Err e, st') → st' = st.
Proof.
  unfold createBacklog. run.
  repeat (destruct (is_empty _); simpl; try congruence).
Qed.

Lemma keeps_backlog_data_same st st' :
  districtsTable st' = districtsTable st →
  villagesTable st' = villagesTable st →
  backlogsTable st' = backlogsTable st →
  keeps_backlog_data st st'.
Proof.
  intros Hd Hv Hb. unfold keeps_backlog_data. rewrite Hd, Hv, Hb.
  split; [auto|]. split; [auto|]. intros b Hin. by exists b.
Qed.

Lemma after_keeps_backlog_data c st : keeps_backlog_data st (after c st).
Proof.
  destruct c; simpl.
  - unfold createDistrict. destruct (is_empty _); simpl.
    + split; [|split]; simpl; [|auto|eauto].
      intros d Hd. apply elem_of_app. by left.
    + by apply keeps_backlog_data_same.
  - unfold createVillage, insert_village. run.
    destruct (is_empty _); simpl; [by apply keeps_backlog_data_same|].
    destruct (is_empty _); simpl.
    + split; [|split]; simpl; [auto| |eauto].
      intros v Hv. apply elem_of_app. by left.
    + by apply keeps_backlog_data_same.
  - destruct (createHousingRecord input createdBy now st) as [[record|e] st'] eqn:E; simpl.
    + apply createHousingRecord_Ok in E. destruct E as (_ & _ & _ & _ & ->).
      by apply keeps_backlog_data_same.
    + apply createHousingRecord_Err in E. subst st'. by apply keeps_backlog_data_same.
  - destruct (updateHousingRecord input updatedBy now st) as [[record|e] st'] eqn:E; simpl.
    + apply updateHousingRecord_Ok in E. destruct E as (? & ? & _ & _ & _ & ->).
      by apply keeps_backlog_data_same.
    + apply updateHousingRecord_Err in E. subst st'. by apply keeps_backlog_data_same.
  - destruct (verifyHousingRecord input verifiedBy now st) as [[record|e] st'] eqn:E; simpl.
    + apply verifyHousingRecord_Ok in E. destruct E as (? & ? & _ & _ & ->).
      by apply keeps_backlog_data_same.
    + apply verifyHousingRecord_Err in E. subst st'. by apply keeps_backlog_data_same.
  - destruct (deleteHousingRecord id deletedBy st) as [[done|e] st'] eqn:E; simpl.
    + apply deleteHousingRecord_Ok in E. destruct E as (_ & _ & ->).
      by apply keeps_backlog_data_same.
    + apply deleteHousingRecord_Err in E. subst st'. by apply keeps_backlog_data_same.
  - destruct (updateHousingCoordinates id latitude longitude updatedBy now st)
      as [[record|e] st'] eqn:E; simpl.
    + apply updateHousingCoordinates_Ok in E. destruct E as (? & ? & _ & _ & ->).
      by apply keeps_backlog_data_same.
    + apply updateHousingCoordinates_Err in E. subst st'. by apply keeps_backlog_data_same.
  - destruct (createBacklog input createdBy now st) as [[entry|e] st'] eqn:E; simpl.
    + apply createBacklog_Ok in E. destruct E as (_ & _ & _ & _ & ->).
      split; [|split]; simpl; [auto|auto|].
      intros b Hb. exists b. split; [|reflexivity]. apply elem_of_app. by left.
    + apply createBacklog_Err in E. subst st'. by apply keeps_backlog_data_same.
  - unfold updateBacklog. run.
    destruct (filter _ (backlogsTable st)) as [|found rest] eqn:Ex; simpl;
      [by apply keeps_backlog_data_same|].
    rewrite Ex. simpl. split; [|split]; simpl; [auto|auto|].
    intros b Hb. exists (update_backlog_row familyCount now id b).
    split; [by apply list_elem_of_fmap_2|].
    unfold update_backlog_row. by destruct (decide _).
  - by apply keeps_backlog_data_same.
Qed.

Lemma after_all_keeps_backlog_data calls st : keeps_backlog_data st (after_all calls st).
Proof.
  revert st. induction calls as [|c calls IH]; intros st; simpl.
  - by apply keeps_backlog_data_same.
  - destruct (after_keeps_backlog_data c st) as (Hd & Hv & Hb).
    destruct (IH (after c st)) as (Hd' & Hv' & Hb').
    split; [auto|]. split; [auto|].
    intros b Hin. destruct (Hb b Hin) as (b1 & Hin1 & Hkey1).
    destruct (Hb' b1 Hin1) as (b2 & Hin2 & Hkey2). exists b2. split; [assumption|congruence].
Qed.

(** C7. When a [createBacklog] has succeeded, a later one with the same
    district, village, year and month is refused, if it has the same backlog
    type, with 'A backlog entry already exists ...': whatever calls were made
    in between, the handler's own query finds the entry before any insertion,
    and the database is left as it was. If the second one, made next, has the
    other backlog type, and no entry of that type was stored for this place
    and period, it succeeds and appends its entry. *)
Theorem createBacklog_rejects_duplicates
    first second createdBy now createdBy' now' st entry st1 :
  createBacklog first createdBy now st = (Ok entry, st1) →
  cb_district_id second = cb_district_id first →
  cb_village_id second = cb_village_id first →
  cb_year second = cb_year first →
  cb_month second = cb_month first →
  (cb_backlog_type second = cb_backlog_type first →
     ∀ calls,
       createBacklog second createdBy' now' (after_all calls st1)
         = (Err A_backlog_entry_already_exists, after_all calls st1))
  ∧ (cb_backlog_type second ≠ cb_backlog_type first →
     (∀ b, b ∈ backlogsTable st → backlog_key b ≠ input_key second) →
     ∃ entry' st2,
       createBacklog second createdBy' now' st1 = (Ok entry', st2)
       ∧ backlogsTable st2 = backlogsTable st1 ++ [entry']
       ∧ backlog_key entry' = input_key second).
Proof.
  intros Hfirst Hd Hv Hy Hm. apply createBacklog_Ok in Hfirst.
  destruct Hfirst as (Hdistrict & Hvillage & Hfree & -> & ->). split.
  - intros Ht calls.
    set (st1 := with_backlogsTable
                  (backlogsTable st ++ [backlog_values first createdBy now (backlogs_id_seq st)])
                  (backlogs_id_seq st + 1) st).
    destruct (after_all_keeps_backlog_data calls st1) as (Hd' & Hv' & Hb').
    generalize dependent (after_all calls st1). intros st2 Hd' Hv' Hb'.
    unfold createBacklog. run. rewrite Hd, Hv, Hy, Hm, Ht.
    assert (E1 : is_empty (filter (λ d, d_id d = cb_district_id first) (districtsTable st2))
                 = false).
    { apply is_empty_filter_false. destruct Hdistrict as (d & Hin & Hid).
      exists d. split; [|assumption]. by apply Hd'. }
    rewrite E1. simpl.
    assert (E2 : is_empty (filter (λ v, v_id v = cb_village_id first
                                        ∧ v_district_id v = cb_district_id first)
                             (villagesTable st2)) = false).
    { apply is_empty_filter_false. destruct Hvillage as (v & Hin & Hid).
      exists v. split; [|assumption]. by apply Hv'. }
    rewrite E2. simpl.
    assert (E3 : is_empty (filter (λ b, bl_district_id b = cb_district_id first
                                        ∧ bl_village_id b = cb_village_id first
                                        ∧ bl_backlog_type b = cb_backlog_type first
                                        ∧ bl_year b = cb_year first
                                        ∧ bl_month b = cb_month first)
                             (backlogsTable st2)) = false).
    { apply is_empty_filter_false.
      destruct (Hb' (backlog_values first createdBy now (backlogs_id_seq st)))
        as (b & Hin & Hkey).
      { simpl. apply elem_of_app. right. left. }
      exists b. split; [assumption|]. by apply backlog_key_eq. }
    rewrite E3. reflexivity.
  - intros Ht Hfree'.
    set (st1 := with_backlogsTable
                  (backlogsTable st ++ [backlog_values first createdBy now (backlogs_id_seq st)])
                  (backlogs_id_seq st + 1) st).
    exists (backlog_values second createdBy' now' (backlogs_id_seq st1)),
      (with_backlogsTable
         (backlogsTable st1 ++ [backlog_values second createdBy' now' (backlogs_id_seq st1)])
         (backlogs_id_seq st1 + 1) st1).
    split; [|split; reflexivity].
    apply createBacklog_Ok. rewrite Hd, Hv. simpl.
    split; [assumption|]. split; [assumption|]. split; [|split; reflexivity].
    intros b Hb. apply elem_of_app in Hb. destruct Hb as [Hb|Hb].
    + by apply Hfree'.
    + apply list_elem_of_singleton in Hb. subst b.
      unfold backlog_key, input_key. simpl. congruence.
Qed.

Lemma createBacklog_rejects_duplicates_witness :
  ∃ entry st1 entry' st2,
    createBacklog (backlog_sample.entry NO_HOUSE 2024 6) 1 100 sample.empty_store
      = (Ok entry, st1)
    ∧ createBacklog (backlog_sample.entry NO_HOUSE 2024 6) 1 200 st1
        = (Err A_backlog_entry_already_exists, st1)
    ∧ createBacklog (backlog_sample.entry UNINHABITABLE_HOUSE 2024 6) 1 200 st1
        = (Ok entry', st2)
    ∧ backlogsTable st2 = [entry; entry'].
Proof.
  eexists _, _. eexists _, _.
  split; [vm_compute; reflexivity|].
  split.
  - refine (proj1 (createBacklog_rejects_duplicates
                     (backlog_sample.entry NO_HOUSE 2024 6)
                     (backlog_sample.entry NO_HOUSE 2024 6)
                     1 100 1 200 sample.empty_store _ _ eq_refl
                     eq_refl eq_refl eq_refl eq_refl) eq_refl []).
  - split; vm_compute; reflexivity.
Defined.

(** C8, as the specification states it, fails when the start year is after
    the end year: nothing lies between (2025, 1) and (2024, 12), and the
    handler returns the entry of June 2025. *)
Lemma getBacklogsByDateRange_inverted_range :
  ∃ entry,
    backlogsTable one_entry_2025 = [entry]
    ∧ (bl_year entry, bl_month entry) = (2025, 6)
    ∧ getBacklogsByDateRange 2025 1 2024 12 one_entry_2025 = (Ok [entry], one_entry_2025)
    ∧ filter (in_range 2025 1 2024 12) (backlogsTable one_entry_2025) = []
    ∧ ¬ in_range 2025 1 2024 12 entry.
Proof.
  eexists. split; [vm_compute; reflexivity|].
  split; [reflexivity|]. split; [vm_compute; reflexivity|].
  split; [vm_compute; reflexivity|].
  apply (bool_decide_unpack _). vm_compute. exact I.
Qed.

(** C8, amended. [getBacklogsByDateRange] reads the store without changing it
    and returns, in the order of the store, exactly the entries that the case
    analysis selects: when startYear = endYear those of that year whose month
    is within the month bounds, otherwise those in the tail of the start year,
    in the head of the end year or in a year strictly between; the result is
    empty when no entry is selected. For every range with
    startYear ≤ endYear these are exactly the entries whose (year, month) lies
    between (startYear, startMonth) and (endYear, endMonth) in lexicographic
    order. *)
Theorem getBacklogsByDateRange_returns_range startYear startMonth endYear endMonth st :
  ∃ results,
    getBacklogsByDateRange startYear startMonth endYear endMonth st = (Ok results, st)
    ∧ results = filter (selected startYear startMonth endYear endMonth) (backlogsTable st)
    ∧ ((∀ b, b ∈ backlogsTable st → ¬ selected startYear startMonth endYear endMonth b) →
       results = [])
    ∧ (startYear ≤ endYear →
       results = filter (in_range startYear startMonth endYear endMonth) (backlogsTable st)).
Proof.
  assert (Hselected :
    (getBacklogsByDateRange startYear startMonth endYear endMonth st).1
    = Ok (filter (selected startYear startMonth endYear endMonth) (backlogsTable st))
    ∧ (getBacklogsByDateRange startYear startMonth endYear endMonth st).2 = st).
  { unfold getBacklogsByDateRange, select.
    destruct (decide (startYear = endYear)) as [Heq|Hne]; simpl;
      (split; [|reflexivity]); f_equal; apply list_filter_iff; intros b;
      unfold selected, tail_of_start_year, head_of_end_year, enclosed_year; lia. }
  destruct (getBacklogsByDateRange startYear startMonth endYear endMonth st)
    as [outcome st'].
  simpl in Hselected. destruct Hselected as [-> ->].
  eexists. split; [reflexivity|]. split; [reflexivity|]. split.
  - intros Hnone. apply is_empty_true. by apply is_empty_filter_true.
  - intros Hle. apply list_filter_iff. intros b.
    unfold selected, tail_of_start_year, head_of_end_year, enclosed_year, in_range, month_le.
    lia.
Qed.

Lemma getBacklogsByDateRange_returns_range_witness :
  (bl_year <$> backlogsTable backlog_sample.across_years = [2023; 2024; 2024])
  ∧ (bl_month <$> backlogsTable backlog_sample.across_years = [11; 2; 10])
  ∧ ∃ results,
      getBacklogsByDateRange 2023 10 2024 5 backlog_sample.across_years
        = (Ok results, backlog_sample.across_years)
      ∧ results = filter (in_range 2023 10 2024 5) (backlogsTable backlog_sample.across_years)
      ∧ bl_month <$> results = [11; 2].
Proof.
  split; [vm_compute; reflexivity|]. split; [vm_compute; reflexivity|].
  destruct (getBacklogsByDateRange_returns_range 2023 10 2024 5 backlog_sample.across_years)
    as (results & Hcall & _ & _ & Hrange).
  exists results. split; [exact Hcall|].
  specialize (Hrange ltac:(lia)). split; [exact Hrange|].
  rewrite Hrange. vm_compute. reflexivity.
Defined.

(** The other two ranges of the specification's examples. *)
Example getBacklogsByDateRange_same_year :
  ∃ results,
    getBacklogsByDateRange 2024 4 2024 8 backlog_sample.same_year
      = (Ok results, backlog_sample.same_year)
    ∧ (λ b, (bl_year b, bl_month b)) <$> results = [(2024, 6)].
Proof. eexists. split; vm_compute; reflexivity. Qed.

Example getBacklogsByDateRange_three_years :
  ∃ results,
    getBacklogsByDateRange 2023 11 2025 3 backlog_sample.three_years
      = (Ok results, backlog_sample.three_years)
    ∧ (λ b, (bl_year b, bl_month b)) <$> results = [(2023, 12); (2024, 6); (2025, 1)].
Proof. eexists. split; vm_compute; reflexivity. Qed.

(** ** The security report *)

(** The rounded product stays in the interval of the integer part of the exact
    one, as long as that interval is wider than the rounding step. *)
Lemma round_53_bounds n k s :
  0 < n → Z.log2 n - 52 ≤ s → 0 ≤ s ≤ 56 →
  k * 2 ^ 56 ≤ n → n + 2 ^ s < (k + 1) * 2 ^ 56 →
  k * 2 ^ 56 ≤ round_53 n ∧ round_53 n < (k + 1) * 2 ^ 56.
Proof.
  intros Hn Hs Hs56 Hlow Hhigh. unfold round_53.
  destruct (Z.leb_spec (Z.log2 n - 52) 0) as [Hle|Hgt].
  { assert (0 < 2 ^ s) by (apply Z.pow_pos_nonneg; lia). lia. }
  set (shift := Z.log2 n - 52) in *.
  rewrite Z.shiftr_div_pow2, !Z.shiftl_mul_pow2 by lia.
  set (P := 2 ^ shift).
  assert (HP : 0 < P) by (apply Z.pow_pos_nonneg; lia).
  assert (HPs : P ≤ 2 ^ s) by (apply Z.pow_le_mono_r; lia).
  assert (H56 : 2 ^ 56 = 2 ^ (56 - shift) * P).
  { unfold P. rewrite <- Z.pow_add_r by lia. f_equal. lia. }
  assert (Hq1 : n / P * P ≤ n) by (rewrite Z.mul_comm; apply Z.mul_div_le; lia).
  assert (Hq2 : k * 2 ^ (56 - shift) ≤ n / P).
  { apply Z.div_le_lower_bound; [lia|]. rewrite H56 in Hlow. lia. }
  assert (Hq3 : k * 2 ^ 56 ≤ n / P * P).
  { rewrite H56. rewrite Z.mul_assoc. apply Z.mul_le_mono_nonneg_r; lia. }
  destruct (_ || _); lia.
Qed.

(** For a count that fits a [serial] column, [Math.floor(count * 0.1)] in
    binary64 arithmetic is the integer quotient of the count by 10. *)
Lemma Math_floor_times_0_1_spec c :
  0 ≤ c < 2 ^ 31 → Math_floor_times_0_1 c = c / 10.
Proof.
  intros Hc. unfold Math_floor_times_0_1.
  rewrite Z.shiftr_div_pow2 by lia.
  destruct (Z.eq_dec c 0) as [->|Hc0]; [reflexivity|].
  pose proof (Z.div_mod c 10 ltac:(lia)) as Hdiv.
  pose proof (Z.mod_pos_bound c 10 ltac:(lia)) as Hmod.
  set (k := c / 10) in *. set (r := c mod 10) in *.
  assert (Hn : 0 < c * tenth) by (unfold tenth; lia).
  assert (Hlog : Z.log2 (c * tenth) - 52 ≤ 31).
  { assert (Z.log2 (c * tenth) < 84); [|lia].
    apply Z.log2_lt_pow2; [lia|]. unfold tenth. lia. }
  assert (Hb : k * 2 ^ 56 ≤ round_53 (c * tenth) ∧ round_53 (c * tenth) < (k + 1) * 2 ^ 56).
  { apply (round_53_bounds _ _ 31); try lia; unfold tenth; lia. }
  symmetry. apply (Z.div_unique _ _ _ (round_53 (c * tenth) - k * 2 ^ 56)); lia.
Qed.

Lemma length_filter_count (P : AuditLog → Prop) `{∀ e, Decision (P e)}
    (Q : AuditLog → bool) (log : list AuditLog) :
  (∀ e, e ∈ log → (P e ↔ Q e = true)) →
  Z.of_nat (length (filter P log)) = count_entries Q log.
Proof.
  induction log as [|e log IH]; intros HPQ; [reflexivity|].
  rewrite filter_cons. simpl.
  assert (IH' : Z.of_nat (length (filter P log)) = count_entries Q log).
  { apply IH. intros e' He'. apply HPQ. by right. }
  pose proof (HPQ e ltac:(left)) as He.
  destruct (decide (P e)) as [HP|HP], (Q e) eqn:HQ; simpl length; try lia.
  - apply He in HP. discriminate.
  - destruct HP. by apply He.
Qed.

Lemma count_entries_bounds P log :
  0 ≤ count_entries P log ∧ count_entries P log ≤ Z.of_nat (length log).
Proof.
  induction log as [|e log IH]; simpl count_entries; simpl length; [lia|].
  destruct (P e); lia.
Qed.

(** C9. For every audit log that holds no entry dated after the call and
    fewer than 2^31 entries (its key is a [serial]), [getSecurityReport]
    returns failed_logins = the number of LOGIN entries of the last 7 days,
    data_exports = the number of EXPORT entries of the last 7 days,
    recent_changes = the number of all entries of the last 7 days, and
    suspicious_activities = floor(0.1 × the number of entries of the last
    day), computed in binary64 arithmetic: it is the quotient of that number
    by 10, and 0 when there is no such entry. The log is left as it was. *)
Theorem getSecurityReport_counts now st :
  (∀ e, e ∈ auditLogsTable st → al_created_at e ≤ now) →
  Z.of_nat (length (auditLogsTable st)) < 2 ^ 31 →
  ∃ report,
    getSecurityReport now st = (Ok report, st)
    ∧ failed_logins report
        = count_entries (λ e, has_action LOGIN e && in_last_days now 7 e) (auditLogsTable st)
    ∧ data_exports report
        = count_entries (λ e, has_action EXPORT e && in_last_days now 7 e) (auditLogsTable st)
    ∧ recent_changes report = count_entries (in_last_days now 7) (auditLogsTable st)
    ∧ suspicious_activities report
        = count_entries (in_last_days now 1) (auditLogsTable st) / 10
    ∧ (10 * suspicious_activities report
         ≤ count_entries (in_last_days now 1) (auditLogsTable st)
       ∧ count_entries (in_last_days now 1) (auditLogsTable st)
         < 10 * (suspicious_activities report + 1))
    ∧ (count_entries (in_last_days now 1) (auditLogsTable st) = 0 →
       suspicious_activities report = 0).
Proof.
  intros Hpast Hsize. unfold getSecurityReport. run.
  eexists. split; [reflexivity|]. simpl.
  assert (Hwindow : ∀ n e, e ∈ auditLogsTable st →
            (days_ago now n ≤ al_created_at e ↔ in_last_days now n e = true)).
  { intros n e He. specialize (Hpast e He). unfold in_last_days, days_ago.
    rewrite andb_true_iff, !Z.leb_le. lia. }
  assert (Hday : Z.of_nat (length (filter (λ e, days_ago now 1 ≤ al_created_at e)
                                     (auditLogsTable st)))
                 = count_entries (in_last_days now 1) (auditLogsTable st)).
  { apply length_filter_count. intros e He. by apply Hwindow. }
  pose proof (count_entries_bounds (in_last_days now 1) (auditLogsTable st)) as Hbound.
  assert (Hfloor : Math_floor_times_0_1
                     (Z.of_nat (length (filter (λ e, days_ago now 1 ≤ al_created_at e)
                                          (auditLogsTable st))))
                   = count_entries (in_last_days now 1) (auditLogsTable st) / 10).
  { rewrite Hday. apply Math_floor_times_0_1_spec. lia. }
  rewrite Hfloor.
  split.
  { apply length_filter_count. intros e He. unfold has_action.
    rewrite andb_true_iff, bool_decide_eq_true, <- (Hwindow 7 e He). reflexivity. }
  split.
  { apply length_filter_count. intros e He. unfold has_action.
    rewrite andb_true_iff, bool_decide_eq_true, <- (Hwindow 7 e He). reflexivity. }
  split.
  { apply length_filter_count. intros e He. by apply Hwindow. }
  split; [reflexivity|].
  split.
  { pose proof (Z.div_mod (count_entries (in_last_days now 1) (auditLogsTable st)) 10
                  ltac:(lia)).
    pose proof (Z.mod_pos_bound (count_entries (in_last_days now 1) (auditLogsTable st)) 10
                  ltac:(lia)).
    lia. }
  intros ->. reflexivity.
Qed.

Lemma getSecurityReport_counts_witness :
  length (auditLogsTable audit_sample.seven_entries) = 7%nat
  ∧ ∃ report,
      getSecurityReport 2000 audit_sample.seven_entries
        = (Ok report, audit_sample.seven_entries)
      ∧ failed_logins report = 2
      ∧ data_exports report = 2
      ∧ recent_changes report = 7
      ∧ suspicious_activities report = 0.
Proof.
  split; [vm_compute; reflexivity|].
  assert (Hpast : ∀ e, e ∈ auditLogsTable audit_sample.seven_entries → al_created_at e ≤ 2000).
  { apply Forall_forall. apply (bool_decide_unpack _). vm_compute. exact I. }
  assert (Hsize : Z.of_nat (length (auditLogsTable audit_sample.seven_entries)) < 2 ^ 31)
    by (vm_compute; reflexivity).
  destruct (getSecurityReport_counts 2000 audit_sample.seven_entries Hpast Hsize)
    as (report & Hcall & Hlogin & Hexport & Hchanges & Hsuspicious & _).
  exists report. split; [exact Hcall|].
  rewrite Hlogin, Hexport, Hchanges, Hsuspicious.
  repeat split; vm_compute; reflexivity.
Defined.

(** * Further properties of the handlers *)

(** ** The housing-record table, call by call *)

Lemma after_housing_change c st : housing_change (call_time c) st (after c st).
Proof.
  destruct c; simpl.
  - apply change_none; unfold createDistrict; destruct (is_empty _); reflexivity.
  - apply change_none; unfold createVillage, insert_village; run;
      repeat (destruct (is_empty _); simpl); reflexivity.
  - destruct (createHousingRecord input createdBy now st) as [[record|e] st'] eqn:E; simpl.
    + apply createHousingRecord_Ok in E. destruct E as (_ & _ & _ & -> & ->).
      by apply (change_created _ _ _ input createdBy now).
    + apply createHousingRecord_Err in E. subst st'. by apply change_none.
  - destruct (updateHousingRecord input updatedBy now st) as [[record|e] st'] eqn:E; simpl.
    + apply updateHousingRecord_Ok in E. destruct E as (? & ? & _ & _ & _ & ->).
      by apply (change_updated _ _ _ input now).
    + apply updateHousingRecord_Err in E. subst st'. by apply change_none.
  - destruct (verifyHousingRecord input verifiedBy now st) as [[record|e] st'] eqn:E; simpl.
    + apply verifyHousingRecord_Ok in E. destruct E as (existing & ? & _ & _ & ->).
      by apply (change_verified _ _ _ input verifiedBy now existing).
    + apply verifyHousingRecord_Err in E. subst st'. by apply change_none.
  - destruct (deleteHousingRecord id deletedBy st) as [[done|e] st'] eqn:E; simpl.
    + apply deleteHousingRecord_Ok in E. destruct E as (_ & _ & ->).
      by apply (change_deleted _ _ _ id).
    + apply deleteHousingRecord_Err in E. subst st'. by apply change_none.
  - destruct (updateHousingCoordinates id latitude longitude updatedBy now st)
      as [[record|e] st'] eqn:E; simpl.
    + apply updateHousingCoordinates_Ok in E. destruct E as (? & ? & _ & _ & ->).
      by apply (change_coordinates _ _ _ id latitude longitude now).
    + apply updateHousingCoordinates_Err in E. subst st'. by apply change_none.
  - apply change_none; unfold createBacklog; run;
      repeat (destruct (is_empty _); simpl); reflexivity.
  - apply change_none; unfold updateBacklog; run;
      destruct (filter _ (backlogsTable st)) eqn:Ex; simpl; try reflexivity;
      rewrite Ex; reflexivity.
  - apply change_none; reflexivity.
Qed.

(** A property of the rows that every writer establishes or keeps holds of
    the table after the call. *)
Lemma housing_change_rows (Q Q' : HousingRecord → Prop) time st st' :
  housing_change time st st' →
  (∀ r, Q r → Q' r) →
  (∀ input createdBy now id,
     time = Some now → Q' (housing_values input createdBy now id)) →
  (∀ input now r,
     time = Some now → Q r → Q' (apply_set (updateValues input now) r)) →
  (∀ input verifiedBy now existing r,
     time = Some now → Q r → Q' (apply_set (verifyValues input verifiedBy now existing) r)) →
  (∀ latitude longitude now r,
     time = Some now → Q r → Q' (apply_set (coordinateValues latitude longitude now) r)) →
  Forall Q (housingRecordsTable st) → Forall Q' (housingRecordsTable st').
Proof.
  intros Hchange Hkeep Hcreate Hupdate Hverify Hcoordinates Hrows.
  destruct Hchange as [E|input createdBy now Ht E|input now Ht E
                      |input verifiedBy now existing Ht E|id latitude longitude now Ht E|id E];
    rewrite E.
  - eapply Forall_impl; eauto.
  - apply Forall_app. split; [eapply Forall_impl; eauto|].
    apply Forall_singleton. by apply Hcreate.
  - apply Forall_fmap. eapply Forall_impl; [exact Hrows|]. intros r Hr. simpl.
    unfold update_row. destruct (decide _); auto.
  - apply Forall_fmap. eapply Forall_impl; [exact Hrows|]. intros r Hr. simpl.
    unfold update_row. destruct (decide _); auto.
  - apply Forall_fmap. eapply Forall_impl; [exact Hrows|]. intros r Hr. simpl.
    unfold update_row. destruct (decide _); auto.
  - apply Forall_forall. intros r Hr. apply list_elem_of_filter in Hr.
    destruct Hr as [_ Hr]. rewrite Forall_forall in Hrows. auto.
Qed.

(** ** The verification columns *)

(** X1. At every reachable state, every stored housing record has verified_by
    and verified_at both set or both null, and has them set when its
    verification status is not PENDING. *)
Theorem verification_columns_coherent st :
  reachable st → Forall verification_coherent (housingRecordsTable st).
Proof.
  induction 1 as [|c st _ IH]; [constructor|].
  apply (housing_change_rows verification_coherent verification_coherent
           (call_time c) st); try assumption; try (apply after_housing_change); auto.
  - intros input createdBy now id _. split; simpl; [|congruence].
    split; intros [? [=]].
  - intros input now r _ [Hboth Hset]. unfold verification_coherent. simpl.
    destruct (hasSignificantChanges input); simpl; [|by split].
    split; [|congruence]. split; intros [? [=]].
  - intros input verifiedBy now existing r _ _. unfold verification_coherent. simpl.
    split; [split; eauto|eauto].
Qed.

Lemma verification_columns_coherent_witness :
  Forall verification_coherent (housingRecordsTable sample.verified_record).
Proof. apply verification_columns_coherent. repeat constructor. Defined.

(** ** The timestamps *)

(** X2. At every state reached by calls whose clock readings never go back,
    every stored housing record has created_at ≤ updated_at ≤ the clock, and a
    verified_at that is set lies between its created_at and its updated_at. *)
Theorem timestamps_in_order clock st :
  reachable_at clock st → Forall (timestamps_ordered clock) (housingRecordsTable st).
Proof.
  induction 1 as [clock|clock c st _ IH Htime|clock clock' st _ IH Hle].
  - constructor.
  - apply (housing_change_rows (timestamps_ordered clock)
             (timestamps_ordered (default clock (call_time c))) (call_time c) st);
      try assumption; try (apply after_housing_change).
    + intros r (Hcu & Huc & Hv). split; [assumption|]. split; [|assumption].
      destruct (call_time c) as [now|]; simpl; [specialize (Htime now eq_refl)|]; lia.
    + intros input createdBy now id ->. unfold timestamps_ordered. simpl. split; [lia|]. split; [lia|].
      intros at_ [=].
    + intros input now r Ht (Hcu & Huc & Hv). rewrite Ht in *. unfold timestamps_ordered. simpl.
      specialize (Htime now eq_refl). split; [lia|]. split; [lia|].
      intros at_. destruct (hasSignificantChanges input); simpl; [intros [=]|].
      intros Hat. specialize (Hv at_ Hat). lia.
    + intros input verifiedBy now existing r Ht (Hcu & Huc & Hv). rewrite Ht in *. unfold timestamps_ordered. simpl.
      specialize (Htime now eq_refl). split; [lia|]. split; [lia|].
      intros at_ [= <-]. lia.
    + intros latitude longitude now r Ht (Hcu & Huc & Hv). rewrite Ht in *. unfold timestamps_ordered. simpl.
      specialize (Htime now eq_refl). split; [lia|]. split; [lia|].
      intros at_ Hat. specialize (Hv at_ Hat). lia.
  - eapply Forall_impl; [exact IH|]. intros r (Hcu & Huc & Hv).
    split; [assumption|]. split; [lia|assumption].
Qed.

Lemma timestamps_in_order_witness :
  Forall (timestamps_ordered 2000) (housingRecordsTable sample.verified_record).
Proof. apply timestamps_in_order. exact sample_reachable_at. Defined.

(** ** Creating, finding and deleting housing records *)

Lemma fmap_with_numbers (rows : list HousingRecord) : with_numbers <$> rows = rows.
Proof.
  induction rows as [|r rows IH]; [reflexivity|].
  simpl. rewrite with_numbers_id. f_equal. exact IH.
Qed.

Lemma getHousingRecordById_filter id st :
  getHousingRecordById id st
  = (Ok (head (filter (λ r, hr_id r = id) (housingRecordsTable st))), st).
Proof.
  unfold getHousingRecordById. run.
  destruct (filter _ (housingRecordsTable st)); simpl; [reflexivity|].
  unfold resolve. by rewrite with_numbers_id.
Qed.

Lemma filter_none {R} (P : R → Prop) `{∀ r, Decision (P r)} (rows : list R) :
  (∀ r, r ∈ rows → ¬ P r) → filter P rows = [].
Proof. intros Hnone. apply is_empty_true. by apply is_empty_filter_true. Qed.

(** X3. At a reachable state, the record that a successful
    [createHousingRecord] returns is the one [getHousingRecordById] finds
    under its id afterwards; looking up any other id gives what it gave
    before; and the record is among those that [getHousingRecordsByDistrict]
    and [getHousingRecordsByVillage] return for the input's district and
    village. *)
Theorem created_record_is_found input createdBy now st record st' :
  reachable st →
  createHousingRecord input createdBy now st = (Ok record, st') →
  getHousingRecordById (hr_id record) st' = (Ok (Some record), st')
  ∧ (∀ id, id ≠ hr_id record →
           (getHousingRecordById id st').1 = (getHousingRecordById id st).1)
  ∧ (∃ results, getHousingRecordsByDistrict (cr_district_id input) st' = (Ok results, st')
                ∧ record ∈ results)
  ∧ (∃ results, getHousingRecordsByVillage (cr_village_id input) st' = (Ok results, st')
                ∧ record ∈ results).
Proof.
  intros Hreach Hcreate. apply reachable_id_unique in Hreach.
  destruct Hreach as [_ Hbound].
  apply createHousingRecord_Ok in Hcreate. destruct Hcreate as (_ & _ & _ & -> & ->).
  rewrite !getHousingRecordById_filter. simpl.
  split; [|split; [|split]].
  - rewrite filter_app, filter_none.
    + rewrite filter_cons. simpl. by destruct (decide _).
    + intros r Hr Hid. specialize (Hbound r Hr). lia.
  - intros id Hid. rewrite !getHousingRecordById_filter. simpl. f_equal.
    rewrite filter_app. simpl. rewrite filter_cons. simpl.
    destruct (decide _) as [Heq|_]; [by destruct Hid|].
    by rewrite filter_nil, app_nil_r.
  - unfold getHousingRecordsByDistrict. run. rewrite fmap_with_numbers.
    eexists. split; [reflexivity|]. apply list_elem_of_filter. split; [reflexivity|].
    apply elem_of_app. right. left.
  - unfold getHousingRecordsByVillage. run. rewrite fmap_with_numbers.
    eexists. split; [reflexivity|]. apply list_elem_of_filter. split; [reflexivity|].
    apply elem_of_app. right. left.
Qed.

Lemma created_record_is_found_witness :
  ∃ record st',
    createHousingRecord sample.falsyInput sample.testUser 3000 sample.one_record
      = (Ok record, st')
    ∧ hr_id record = 2
    ∧ getHousingRecordById 2 st' = (Ok (Some record), st').
Proof.
  eexists _, _. split; [vm_compute; reflexivity|]. split; [reflexivity|].
  refine (proj1 (created_record_is_found sample.falsyInput sample.testUser 3000
                   sample.one_record _ _ _ eq_refl)).
  repeat constructor.
Defined.

(** X4. For a stored id, at a reachable state, [deleteHousingRecord] returns
    true and removes exactly that record: the table is one row shorter,
    [getHousingRecordById] no longer finds the id and finds every other id as
    before, and no other table is touched. *)
Theorem deleteHousingRecord_removes_the_record id deletedBy st :
  reachable st →
  (∃ r, r ∈ housingRecordsTable st ∧ hr_id r = id) →
  ∃ st',
    deleteHousingRecord id deletedBy st = (Ok true, st')
    ∧ S (length (housingRecordsTable st')) = length (housingRecordsTable st)
    ∧ getHousingRecordById id st' = (Ok None, st')
    ∧ (∀ id', id' ≠ id →
              (getHousingRecordById id' st').1 = (getHousingRecordById id' st).1)
    ∧ districtsTable st' = districtsTable st
    ∧ villagesTable st' = villagesTable st
    ∧ backlogsTable st' = backlogsTable st
    ∧ auditLogsTable st' = auditLogsTable st.
Proof.
  intros Hreach [r [Hr Hid]]. apply reachable_id_unique in Hreach.
  destruct Hreach as [Hnodup _].
  eexists. split.
  { apply deleteHousingRecord_Ok. split; [by exists r|]. split; reflexivity. }
  rewrite !getHousingRecordById_filter. simpl.
  split; [|split; [|split]]; [| | |repeat split].
  - pose proof (filter_key_unique hr_id _ _ Hnodup Hr) as Hone. rewrite Hid in Hone.
    pose proof (filter_app_complement (λ r, hr_id r = id) (housingRecordsTable st)) as Hperm.
    apply Permutation_length in Hperm. rewrite length_app, Hone in Hperm.
    simpl in Hperm. exact Hperm.
  - rewrite list_filter_filter, filter_none; [reflexivity|]. intros r' _ [? ?]. congruence.
  - intros id' Hne. rewrite !getHousingRecordById_filter. simpl. f_equal. f_equal.
    rewrite list_filter_filter.
    apply list_filter_iff. intros r'. split; [tauto|]. intros Heq. split; congruence.
Qed.

Lemma deleteHousingRecord_removes_the_record_witness :
  ∃ st',
    deleteHousingRecord 1 sample.testUser sample.one_record = (Ok true, st')
    ∧ housingRecordsTable st' = [].
Proof.
  destruct (deleteHousingRecord_removes_the_record 1 sample.testUser sample.one_record)
    as (st' & Hdelete & Hlength & _).
  - repeat constructor.
  - eexists. split; [left|reflexivity].
  - exists st'. split; [exact Hdelete|].
    destruct (housingRecordsTable st'); [reflexivity|discriminate].
Defined.

(** X5. When no stored record has the id, [updateHousingRecord],
    [verifyHousingRecord] and [deleteHousingRecord] throw 'Housing record not
    found' and [updateHousingCoordinates] throws 'Housing record with ID ...
    not found', whatever else the input holds, and the database is left as it
    was. *)
Theorem missing_record_is_an_error id st :
  (∀ r, r ∈ housingRecordsTable st → hr_id r ≠ id) →
  (∀ input updatedBy now,
     up_id input = id →
     updateHousingRecord input updatedBy now st = (Err Housing_record_not_found, st))
  ∧ (∀ input verifiedBy now,
       vf_id input = id →
       verifyHousingRecord input verifiedBy now st = (Err Housing_record_not_found, st))
  ∧ (∀ deletedBy,
       deleteHousingRecord id deletedBy st = (Err Housing_record_not_found, st))
  ∧ (∀ latitude longitude updatedBy now,
       updateHousingCoordinates id latitude longitude updatedBy now st
       = (Err (Housing_record_with_ID_not_found id), st)).
Proof.
  intros Hmissing.
  assert (Hnone : filter (λ r, hr_id r = id) (housingRecordsTable st) = [])
    by (by apply filter_none).
  split; [|split; [|split]].
  - intros input updatedBy now <-. unfold updateHousingRecord. run. by rewrite Hnone.
  - intros input verifiedBy now <-. unfold verifyHousingRecord. run. by rewrite Hnone.
  - intros deletedBy. unfold deleteHousingRecord. run. by rewrite Hnone.
  - intros latitude longitude updatedBy now. unfold updateHousingCoordinates. run.
    by rewrite Hnone.
Qed.

Lemma missing_record_is_an_error_witness :
  deleteHousingRecord 99999 sample.testUser sample.one_record
  = (Err Housing_record_not_found, sample.one_record).
Proof.
  refine (proj1 (proj2 (proj2 (missing_record_is_an_error 99999 sample.one_record _))) _).
  apply Forall_forall. apply (bool_decide_unpack _). vm_compute. exact I.
Defined.



(** ** Updates *)



Lemma NoDup_fmap_eq {A B} (f : A → B) (l : list A) (x y : A) :
  NoDup (f <$> l) → x ∈ l → y ∈ l → f x = f y → x = y.
Proof.
  intros Hnodup Hx Hy Hf.
  apply list_elem_of_lookup in Hx, Hy. destruct Hx as [i Hi], Hy as [j Hj].
  assert (i = j).
  { apply (NoDup_lookup _ _ _ (f x) Hnodup).
    - by rewrite list_lookup_fmap, Hi.
    - by rewrite list_lookup_fmap, Hj, Hf. }
  subst j. congruence.
Qed.

Lemma update_row_identity u id r :
  identity_columns (update_row u id r) = identity_columns r.
Proof. unfold update_row. by destruct (decide _). Qed.

(** X8. No call changes the id, nik, creator or creation time of a stored
    housing record: at a reachable state, a record that a call leaves in the
    table under the same id has the same four columns as before. In
    particular the nik of a record cannot be edited. *)
Theorem identity_columns_never_change c st r r' :
  reachable st →
  r ∈ housingRecordsTable st →
  r' ∈ housingRecordsTable (after c st) →
  hr_id r' = hr_id r →
  identity_columns r' = identity_columns r.
Proof.
  intros Hreach Hr Hr' Hid. apply reachable_id_unique in Hreach.
  destruct Hreach as [Hnodup Hbound].
  assert (Hupdated : ∀ u id,
            r' ∈ update_row u id <$> housingRecordsTable st →
            identity_columns r' = identity_columns r).
  { intros u id Hin. apply list_elem_of_fmap in Hin. destruct Hin as (r0 & -> & Hr0).
    rewrite update_row_identity. f_equal.
    apply (NoDup_fmap_eq hr_id _ _ _ Hnodup Hr0 Hr).
    by rewrite <- Hid, update_row_id. }
  destruct (after_housing_change c st)
    as [E|input createdBy now _ E|input now _ E|input verifiedBy now existing _ E
       |id latitude longitude now _ E|id E];
    rewrite E in Hr'; eauto.
  - f_equal. by apply (NoDup_fmap_eq hr_id _ _ _ Hnodup Hr' Hr).
  - apply elem_of_app in Hr'. destruct Hr' as [Hr'|Hr'].
    + f_equal. by apply (NoDup_fmap_eq hr_id _ _ _ Hnodup Hr' Hr).
    + apply list_elem_of_singleton in Hr'. subst r'. simpl in Hid.
      specialize (Hbound r Hr). lia.
  - apply list_elem_of_filter in Hr'. destruct Hr' as [_ Hr'].
    f_equal. by apply (NoDup_fmap_eq hr_id _ _ _ Hnodup Hr' Hr).
Qed.

Lemma identity_columns_never_change_witness :
  ∃ r r',
    r ∈ housingRecordsTable sample.one_record
    ∧ r' ∈ housingRecordsTable sample.verified_record
    ∧ hr_id r' = hr_id r
    ∧ identity_columns r' = identity_columns r.
Proof.
  exists (housing_values sample.testInput sample.testUser 1000 1).
  eexists. split; [left|]. split; [cbv; left|]. split; [reflexivity|].
  apply (identity_columns_never_change
           (call_verifyHousingRecord
              {| vf_id := 1; vf_verification_status := VERIFIED; vf_notes := undefined |}
              sample.testUser 2000)
           sample.one_record).
  - repeat constructor.
  - left.
  - cbv. left.
  - reflexivity.
Defined.

(** ** Districts and villages *)

Lemma housing_handler_other_tables {A} (h : handler A) st :
  (∀ a st', h st = (Ok a, st') →
            ∃ rows seq, st' = with_housingRecordsTable rows seq st) →
  (∀ e st', h st = (Err e, st') → st' = st) →
  districtsTable (h st).2 = districtsTable st
  ∧ districts_id_seq (h st).2 = districts_id_seq st
  ∧ villagesTable (h st).2 = villagesTable st
  ∧ villages_id_seq (h st).2 = villages_id_seq st
  ∧ backlogsTable (h st).2 = backlogsTable st
  ∧ backlogs_id_seq (h st).2 = backlogs_id_seq st
  ∧ auditLogsTable (h st).2 = auditLogsTable st
  ∧ audit_logs_id_seq (h st).2 = audit_logs_id_seq st.
Proof.
  intros Hok Herr. destruct (h st) as [[a|e] st'] eqn:E; simpl.
  - destruct (Hok a st' eq_refl) as (rows & seq & ->). repeat split.
  - rewrite (Herr e st' eq_refl). repeat split.
Qed.

Lemma housing_calls_other_tables c st :
  match c with
  | call_createHousingRecord _ _ _ | call_updateHousingRecord _ _ _
  | call_verifyHousingRecord _ _ _ | call_deleteHousingRecord _ _
  | call_updateHousingCoordinates _ _ _ _ _ =>
      districtsTable (after c st) = districtsTable st
      ∧ districts_id_seq (after c st) = districts_id_seq st
      ∧ villagesTable (after c st) = villagesTable st
      ∧ villages_id_seq (after c st) = villages_id_seq st
      ∧ backlogsTable (after c st) = backlogsTable st
      ∧ backlogs_id_seq (after c st) = backlogs_id_seq st
      ∧ auditLogsTable (after c st) = auditLogsTable st
      ∧ audit_logs_id_seq (after c st) = audit_logs_id_seq st
  | _ => True
  end.
Proof.
  destruct c; simpl; try exact I; apply housing_handler_other_tables.
  - intros a st' E. apply createHousingRecord_Ok in E.
    destruct E as (_ & _ & _ & _ & ->). eauto.
  - apply createHousingRecord_Err.
  - intros a st' E. apply updateHousingRecord_Ok in E.
    destruct E as (? & ? & _ & _ & _ & ->). eauto.
  - apply updateHousingRecord_Err.
  - intros a st' E. apply verifyHousingRecord_Ok in E.
    destruct E as (? & ? & _ & _ & ->). eauto.
  - apply verifyHousingRecord_Err.
  - intros a st' E. apply deleteHousingRecord_Ok in E.
    destruct E as (_ & _ & ->). eauto.
  - apply deleteHousingRecord_Err.
  - intros a st' E. apply updateHousingCoordinates_Ok in E.
    destruct E as (? & ? & _ & _ & ->). eauto.
  - apply updateHousingCoordinates_Err.
Qed.

Lemma after_reference_change c st : reference_change st (after c st).
Proof.
  pose proof (housing_calls_other_tables c st) as Hother.
  destruct c; simpl in *;
    try (destruct Hother as (Hd & Hds & Hv & Hvs & _);
         apply reference_same; rewrite ?Hd, ?Hds, ?Hv, ?Hvs; (reflexivity || lia)).
  - unfold createDistrict. destruct (is_empty _); simpl.
    + by apply (district_added _ _ input).
    + apply reference_same; simpl; (reflexivity || lia).
  - unfold createVillage, insert_village. run.
    destruct (is_empty (filter _ (districtsTable st))) eqn:Ed; simpl.
    { apply reference_same; simpl; (reflexivity || lia). }
    rewrite is_empty_filter_false in Ed.
    destruct (is_empty _); simpl.
    + by apply (village_added _ _ input).
    + apply reference_same; simpl; (reflexivity || lia).
  - apply reference_same; unfold createBacklog; run;
      repeat (destruct (is_empty _); simpl); (reflexivity || lia).
  - apply reference_same; unfold updateBacklog; run;
      destruct (filter _ (backlogsTable st)) eqn:Ex; simpl; rewrite ?Ex;
      (reflexivity || lia).
  - apply reference_same; simpl; (reflexivity || lia).
Qed.

Lemma reachable_reference_sequences st :
  reachable st → 1 ≤ districts_id_seq st ∧ 1 ≤ villages_id_seq st.
Proof.
  induction 1 as [|c st _ [Hd Hv]]; [simpl; lia|].
  destruct (after_reference_change c st); lia.
Qed.

Lemma NoDup_fmap_snoc {A B} (f : A → B) (l : list A) (a : A) :
  NoDup (f <$> l) → (∀ x, x ∈ l → f x ≠ f a) → NoDup (f <$> (l ++ [a])).
Proof.
  intros Hl Hnew. rewrite fmap_app. apply NoDup_app. split; [assumption|]. split.
  - intros i Hin Hi. simpl in Hi. apply list_elem_of_singleton in Hi. subst i.
    apply list_elem_of_fmap in Hin. destruct Hin as (x & Heq & Hin).
    by apply (Hnew x).
  - simpl. apply NoDup_singleton.
Qed.

Lemma reachable_reference_data_sound st : reachable st → reference_data_sound st.
Proof.
  induction 1 as [|c st Hst (Hd & Hdn & Hv & Hvn & Hvd)].
  - split; [|split; [|split; [|split]]]; simpl;
      first [apply NoDup_nil_2 | intros ? Hin; inversion Hin].
  - destruct (reachable_reference_sequences st Hst) as [Hd1 Hv1].
    destruct (after_reference_change c st)
      as [Ed Ev Hds Hvs|input Ed Hds Ev Hvs|input Hdistrict Ev Hvs Ed Hds];
      unfold reference_data_sound; rewrite Ed, Ev.
    + split; [|split; [|split; [|split]]]; try assumption.
      * intros d Hin. specialize (Hd d Hin). lia.
      * intros v Hin. specialize (Hv v Hin). lia.
    + rewrite Hds, Hvs. split; [|split; [|split; [|split]]]; try assumption.
      * intros d Hin. apply elem_of_app in Hin. destruct Hin as [Hin|Hin].
        -- specialize (Hd d Hin). lia.
        -- apply list_elem_of_singleton in Hin. subst d. simpl. lia.
      * apply NoDup_fmap_snoc; [assumption|].
        intros d Hin. specialize (Hd d Hin). simpl. lia.
      * intros v Hin. destruct (Hvd v Hin) as (d & Hdin & Hid). exists d.
        split; [|assumption]. apply elem_of_app. by left.
    + rewrite Hds, Hvs. split; [|split; [|split; [|split]]]; try assumption.
      * intros v Hin. apply elem_of_app in Hin. destruct Hin as [Hin|Hin].
        -- specialize (Hv v Hin). lia.
        -- apply list_elem_of_singleton in Hin. subst v. simpl. lia.
      * apply NoDup_fmap_snoc; [assumption|].
        intros v Hin. specialize (Hv v Hin). simpl. lia.
      * intros v Hin. apply elem_of_app in Hin. destruct Hin as [Hin|Hin].
        -- by apply Hvd.
        -- apply list_elem_of_singleton in Hin. subst v. simpl. exact Hdistrict.
Qed.

(** X9. At every reachable state the identifiers of the districts and of the
    villages are distinct, at least 1 and below their sequences, and every
    village belongs to a stored district: [getVillageById] finds each stored
    village under its id, [getDistrictById] finds the village's district, and
    [getVillagesByDistrict] lists the village under that district. *)
Theorem reference_data_is_sound st :
  reachable st →
  reference_data_sound st
  ∧ ∀ village, village ∈ villagesTable st →
      getVillageById (v_id village) st = (Ok (Some village), st)
      ∧ ∃ district villages,
          getDistrictById (v_district_id village) st = (Ok (Some district), st)
          ∧ d_id district = v_district_id village
          ∧ getVillagesByDistrict (d_id district) st = (Ok villages, st)
          ∧ village ∈ villages.
Proof.
  intros Hst. pose proof (reachable_reference_data_sound st Hst) as Hsound.
  split; [exact Hsound|]. destruct Hsound as (_ & Hdn & _ & Hvn & Hvd).
  intros village Hin. split.
  - unfold getVillageById. run. by rewrite (filter_key_unique v_id).
  - destruct (Hvd village Hin) as (district & Hdin & Hid).
    exists district, (filter (λ v, v_district_id v = d_id district) (villagesTable st)).
    split; [|split; [|split]].
    + unfold getDistrictById. run. rewrite <- Hid.
      by rewrite (filter_key_unique d_id).
    + exact Hid.
    + reflexivity.
    + apply list_elem_of_filter. split; [congruence|assumption].
Qed.

Lemma reference_data_is_sound_witness :
  reachable sample.empty_store
  ∧ getVillageById 1 sample.empty_store
    = (Ok (Some {| v_id := 1; v_name := "Test Village"; v_code := "TV01";
                   v_district_id := 1 |}), sample.empty_store).
Proof.
  assert (reachable sample.empty_store) as H
    by (unfold sample.empty_store; repeat constructor).
  split; [exact H|].
  destruct (reference_data_is_sound _ H) as [_ Hlookup].
  refine (proj1 (Hlookup {| v_id := 1; v_name := "Test Village"; v_code := "TV01";
                            v_district_id := 1 |} _)).
  vm_compute. left.
Defined.

(** X10. An update whose [district_id] is 0 is not checked against the district
    table, 0 being falsy: on a stored record it succeeds and stores district 0,
    which no district of a reachable state has. *)
Theorem updateHousingRecord_district_zero_unchecked input updatedBy now st :
  reachable st →
  (∃ r, r ∈ housingRecordsTable st ∧ hr_id r = up_id input) →
  up_district_id input = Some 0 →
  (∀ v, up_village_id input = Some v → v ≠ 0 →
        ∃ row, row ∈ villagesTable st ∧ v_id row = v) →
  ∃ record st',
    updateHousingRecord input updatedBy now st = (Ok record, st')
    ∧ hr_district_id record = 0
    ∧ record ∈ housingRecordsTable st'
    ∧ districtsTable st' = districtsTable st
    ∧ ∀ d, d ∈ districtsTable st' → d_id d ≠ hr_district_id record.
Proof.
  intros Hst (r & Hr & Hid) Hd Hv.
  destruct (filter (λ r, hr_id r = up_id input) (housingRecordsTable st))
    as [|existing rest] eqn:Ex.
  { exfalso. eapply (filter_nil_not_elem_of _ _ r); eauto. }
  assert (Hvalid : validate_location input st = (Ok (), st)).
  { apply validate_location_Ok. rewrite Hd.
    destruct (up_village_id input) as [v|] eqn:Ev; [|reflexivity].
    change (truthy 0) with false. simpl.
    destruct (truthy v) eqn:Et; [|exact I].
    apply Hv; [reflexivity|]. by apply truthy_number_true. }
  assert (He : existing ∈ housingRecordsTable st ∧ hr_id existing = up_id input)
    by exact (filter_head_elem (λ r, hr_id r = up_id input) _ _ _ Ex).
  assert (Hrec : hr_district_id (apply_set (updateValues input now) existing) = 0)
    by (unfold apply_set, updateValues; simpl; rewrite Hd; reflexivity).
  exists (apply_set (updateValues input now) existing),
    (with_housingRecordsTable
       (update_row (updateValues input now) (up_id input) <$> housingRecordsTable st)
       (housing_records_id_seq st) st).
  split; [|split; [|split; [|split]]].
  - apply updateHousingRecord_Ok. exists existing, rest. auto.
  - exact Hrec.
  - simpl. apply list_elem_of_fmap. exists existing. split; [|tauto].
    unfold update_row. rewrite decide_True by tauto. reflexivity.
  - reflexivity.
  - rewrite Hrec. simpl. intros d Hin.
    destruct (reachable_reference_data_sound st Hst) as (Hds & _).
    specialize (Hds d Hin). lia.
Qed.

Lemma updateHousingRecord_district_zero_unchecked_witness :
  ∃ record st',
    updateHousingRecord (sample.set_district 1 0) sample.testUser 2000 sample.one_record
    = (Ok record, st')
    ∧ hr_district_id record = 0
    ∧ ∀ d, d ∈ districtsTable st' → d_id d ≠ 0.
Proof.
  destruct (updateHousingRecord_district_zero_unchecked
              (sample.set_district 1 0) sample.testUser 2000 sample.one_record)
    as (record & st' & Hrun & Hzero & _ & _ & Hnone).
  - repeat constructor.
  - eexists. split; [left|reflexivity].
  - reflexivity.
  - discriminate.
  - exists record, st'. rewrite Hzero in Hnone. auto.
Defined.

Lemma filter_snoc_fresh {R} (key : R → Z) (rows : list R) (row : R) :
  (∀ r, r ∈ rows → key r ≠ key row) →
  filter (λ r, key r = key row) (rows ++ [row]) = [row].
Proof.
  intros Hfresh. rewrite filter_app, (filter_none _ rows).
  - rewrite filter_cons, decide_True by reflexivity. reflexivity.
  - exact Hfresh.
Qed.

(** X11. [createVillage] checks the district first and fails when it is missing,
    leaving the database as it was; a code already used in the district is
    refused by the table and no row is written; otherwise the village is
    appended under a new id with the input's columns, and [getVillageById]
    finds it under that id. *)
Theorem createVillage_outcome input st :
  reachable st →
  let district := filter (λ d, d_id d = cv_district_id input) (districtsTable st) in
  let same_code :=
    filter (λ v, v_code v = cv_code input ∧ v_district_id v = cv_district_id input)
           (villagesTable st) in
  match district, same_code with
  | [], _ =>
      createVillage input st = (Err (District_with_ID_not_found (cv_district_id input)), st)
  | _ :: _, _ :: _ =>
      ∃ st', createVillage input st
             = (Err (unique_violation "villages_code_district_unique"), st')
             ∧ villagesTable st' = villagesTable st
             ∧ districtsTable st' = districtsTable st
  | _ :: _, [] =>
      ∃ village st',
        createVillage input st = (Ok village, st')
        ∧ villagesTable st' = villagesTable st ++ [village]
        ∧ districtsTable st' = districtsTable st
        ∧ (∀ v, v ∈ villagesTable st → v_id v ≠ v_id village)
        ∧ v_name village = cv_name input
        ∧ v_code village = cv_code input
        ∧ v_district_id village = cv_district_id input
        ∧ getVillageById (v_id village) st' = (Ok (Some village), st')
  end.
Proof.
  intros Hst. simpl. unfold createVillage, insert_village. run.
  destruct (filter _ (districtsTable st)) as [|d ds] eqn:Ed; simpl; [reflexivity|].
  destruct (filter _ (villagesTable st)) as [|v vs] eqn:Ev; simpl.
  - eexists _, _. split; [reflexivity|]. simpl.
    assert (Hfresh : ∀ v, v ∈ villagesTable st → v_id v ≠ villages_id_seq st).
    { destruct (reachable_reference_data_sound st Hst) as (_ & _ & Hv & _).
      intros v Hin. specialize (Hv v Hin). lia. }
    repeat (split; [first [reflexivity | exact Hfresh]|]).
    unfold getVillageById. run.
    pose proof (filter_snoc_fresh v_id (villagesTable st)
                  {| v_id := villages_id_seq st; v_name := cv_name input;
                     v_code := cv_code input; v_district_id := cv_district_id input |}
                  Hfresh) as Efound.
    simpl in Efound. by rewrite Efound.
  - eexists. split; [reflexivity|]. split; reflexivity.
Qed.

Lemma createVillage_outcome_witness :
  createVillage {| cv_name := "Test Village"; cv_code := "TV001"; cv_district_id := 999 |}
                sample.empty_store
  = (Err (District_with_ID_not_found 999), sample.empty_store).
Proof.
  apply (createVillage_outcome
           {| cv_name := "Test Village"; cv_code := "TV001"; cv_district_id := 999 |}
           sample.empty_store).
  repeat constructor.
Defined.

(** X12. [createDistrict] leaves the check of the code to the table: a code
    already stored is refused and no row is written; otherwise the district
    is appended under a new id with the input's name and code, and
    [getDistrictById] finds it under that id. The villages are not touched. *)
Theorem createDistrict_outcome input st :
  reachable st →
  match filter (λ d, d_code d = cd_code input) (districtsTable st) with
  | _ :: _ =>
      ∃ st', createDistrict input st = (Err (unique_violation "districts_code_unique"), st')
             ∧ districtsTable st' = districtsTable st
             ∧ villagesTable st' = villagesTable st
  | [] =>
      ∃ district st',
        createDistrict input st = (Ok district, st')
        ∧ districtsTable st' = districtsTable st ++ [district]
        ∧ villagesTable st' = villagesTable st
        ∧ (∀ d, d ∈ districtsTable st → d_id d ≠ d_id district)
        ∧ d_name district = cd_name input
        ∧ d_code district = cd_code input
        ∧ getDistrictById (d_id district) st' = (Ok (Some district), st')
  end.
Proof.
  intros Hst. unfold createDistrict.
  destruct (filter _ (districtsTable st)) as [|d ds] eqn:Ed; simpl.
  - eexists _, _. split; [reflexivity|]. simpl.
    assert (Hfresh : ∀ d, d ∈ districtsTable st → d_id d ≠ districts_id_seq st).
    { destruct (reachable_reference_data_sound st Hst) as (Hd & _).
      intros d Hin. specialize (Hd d Hin). lia. }
    repeat (split; [first [reflexivity | exact Hfresh]|]).
    unfold getDistrictById. run.
    pose proof (filter_snoc_fresh d_id (districtsTable st)
                  {| d_id := districts_id_seq st; d_name := cd_name input;
                     d_code := cd_code input |} Hfresh) as Efound.
    simpl in Efound. by rewrite Efound.
  - eexists. split; [reflexivity|]. split; reflexivity.
Qed.

Lemma createDistrict_outcome_witness :
  ∃ st', createDistrict {| cd_name := "Duplicate"; cd_code := "TD01" |} sample.empty_store
         = (Err (unique_violation "districts_code_unique"), st')
         ∧ districtsTable st' = districtsTable sample.empty_store.
Proof.
  destruct (createDistrict_outcome {| cd_name := "Duplicate"; cd_code := "TD01" |}
              sample.empty_store) as (st' & Hrun & Hd & _).
  - repeat constructor.
  - exists st'. split; [exact Hrun|exact Hd].
Defined.

(** ** Backlogs *)

Lemma updateBacklog_Ok id familyCount updatedBy now st entry st' :
  updateBacklog id familyCount updatedBy now st = (Ok entry, st') ↔
  ∃ existing rest,
    filter (λ b, bl_id b = id) (backlogsTable st) = existing :: rest
    ∧ entry = update_backlog_row familyCount now id existing
    ∧ st' = with_backlogsTable (update_backlog_row familyCount now id <$> backlogsTable st)
              (backlogs_id_seq st) st.
Proof.
  unfold updateBacklog, update_backlogs. run.
  destruct (filter _ (backlogsTable st)) as [|existing rest] eqn:Ex; simpl.
  - split; [discriminate|]. intros (? & ? & [=] & _).
  - rewrite Ex. simpl. split.
    + intros [= <- <-]. eauto.
    + intros (? & ? & [= <- <-] & -> & ->). reflexivity.
Qed.

Lemma updateBacklog_Err id familyCount updatedBy now st e st' :
  updateBacklog id familyCount updatedBy now st = (Err e, st') →
  st' = st ∧ e = Backlog_with_ID_does_not_exist id
  ∧ ∀ b, b ∈ backlogsTable st → bl_id b ≠ id.
Proof.
  unfold updateBacklog, update_backlogs. run.
  destruct (filter _ (backlogsTable st)) as [|existing rest] eqn:Ex; simpl.
  - intros [= <- <-]. repeat split.
    intros b Hin Hid. eapply (filter_nil_not_elem_of _ _ b); eauto.
  - rewrite Ex. simpl. discriminate.
Qed.

Lemma after_backlog_change c st : backlog_change st (after c st).
Proof.
  pose proof (housing_calls_other_tables c st) as Hother.
  destruct c; simpl in *;
    try (destruct Hother as (_ & _ & _ & _ & Hb & Hbs & _);
         by apply backlog_same).
  - apply backlog_same; unfold createDistrict; destruct (is_empty _); reflexivity.
  - apply backlog_same; unfold createVillage, insert_village; run;
      repeat (destruct (is_empty _); simpl); reflexivity.
  - destruct (createBacklog input createdBy now st) as [[entry|e] st'] eqn:E; simpl.
    + apply createBacklog_Ok in E. destruct E as (_ & Hv & Hfree & -> & ->).
      by apply (backlog_added _ _ input createdBy now).
    + apply createBacklog_Err in E. subst st'. by apply backlog_same.
  - destruct (updateBacklog id familyCount updatedBy now st) as [[entry|e] st'] eqn:E; simpl.
    + apply updateBacklog_Ok in E. destruct E as (? & ? & _ & _ & ->).
      by apply (backlog_updated _ _ familyCount now id).
    + apply updateBacklog_Err in E. destruct E as (-> & _). by apply backlog_same.
  - by apply backlog_same.
Qed.

Lemma update_backlog_row_key familyCount now id b :
  bl_id (update_backlog_row familyCount now id b) = bl_id b
  ∧ backlog_key (update_backlog_row familyCount now id b) = backlog_key b
  ∧ bl_created_by (update_backlog_row familyCount now id b) = bl_created_by b
  ∧ bl_created_at (update_backlog_row familyCount now id b) = bl_created_at b.
Proof. unfold update_backlog_row. destruct (decide _); repeat split. Qed.

Lemma fmap_update_backlog_row {B} (f : Backlog → B) familyCount now id
    (rows : list Backlog) :
  (∀ b, f (update_backlog_row familyCount now id b) = f b) →
  f <$> (update_backlog_row familyCount now id <$> rows) = f <$> rows.
Proof.
  intros Hf. rewrite <- list_fmap_compose. apply list_fmap_ext. intros ? b _. apply Hf.
Qed.

Lemma reachable_backlogs_sound st : reachable st → backlogs_sound st.
Proof.
  induction 1 as [|c st Hst (Hkey & Hid & Hseq & Hvillage)].
  - split; [|split; [|split]]; simpl;
      first [apply NoDup_nil_2 | intros ? Hin; inversion Hin].
  - destruct (after_keeps_backlog_data c st) as (_ & Hvs & _).
    assert (Hkeep : ∀ b, (∃ v, v ∈ villagesTable st
                               ∧ v_id v = bl_village_id b
                               ∧ v_district_id v = bl_district_id b) →
                         ∃ v, v ∈ villagesTable (after c st)
                              ∧ v_id v = bl_village_id b
                              ∧ v_district_id v = bl_district_id b).
    { intros b (v & Hin & Hv). exists v. split; [by apply Hvs|assumption]. }
    destruct (after_backlog_change c st)
      as [Eb Ebs|input createdBy now Hv Hfree Eb Ebs|familyCount now id Eb Ebs];
      unfold backlogs_sound; rewrite Eb, Ebs.
    + split; [|split; [|split]]; try assumption.
      intros b Hin. apply Hkeep. by apply Hvillage.
    + split; [|split; [|split]].
      * apply NoDup_fmap_snoc; [assumption|]. intros b Hin. by apply Hfree.
      * apply NoDup_fmap_snoc; [assumption|].
        intros b Hin. specialize (Hseq b Hin). simpl. lia.
      * intros b Hin. apply elem_of_app in Hin. destruct Hin as [Hin|Hin].
        -- specialize (Hseq b Hin). lia.
        -- apply list_elem_of_singleton in Hin. subst b. simpl. lia.
      * intros b Hin. apply elem_of_app in Hin. destruct Hin as [Hin|Hin].
        -- apply Hkeep. by apply Hvillage.
        -- apply list_elem_of_singleton in Hin. subst b. apply Hkeep. exact Hv.
    + split; [|split; [|split]].
      * rewrite fmap_update_backlog_row; [assumption|].
        intros b. apply update_backlog_row_key.
      * rewrite fmap_update_backlog_row; [assumption|].
        intros b. apply update_backlog_row_key.
      * intros b Hin. apply list_elem_of_fmap in Hin. destruct Hin as (b0 & -> & Hin).
        destruct (update_backlog_row_key familyCount now id b0) as (-> & _).
        by apply Hseq.
      * intros b Hin. apply list_elem_of_fmap in Hin. destruct Hin as (b0 & -> & Hin).
        apply Hkeep.
        destruct (update_backlog_row_key familyCount now id b0) as (_ & Hk & _).
        injection Hk as -> -> _ _ _. by apply Hvillage.
Qed.

(** X13. At every reachable state no two backlog entries share an id or the key
    (district, village, type, year, month); [getBacklogById] finds each stored
    entry under its id, [getBacklogsByDistrict] lists it under its district,
    and the entry's village is a stored village of the entry's district. *)
Theorem backlog_entries_are_sound st :
  reachable st →
  backlogs_sound st
  ∧ ∀ entry, entry ∈ backlogsTable st →
      getBacklogById (bl_id entry) st = (Ok (Some entry), st)
      ∧ ∃ entries village,
          getBacklogsByDistrict (bl_district_id entry) st = (Ok entries, st)
          ∧ entry ∈ entries
          ∧ getVillageById (bl_village_id entry) st = (Ok (Some village), st)
          ∧ v_district_id village = bl_district_id entry.
Proof.
  intros Hst. pose proof (reachable_backlogs_sound st Hst) as Hsound.
  split; [exact Hsound|]. destruct Hsound as (_ & Hid & _ & Hvillage).
  destruct (reachable_reference_data_sound st Hst) as (_ & _ & _ & Hvn & _).
  intros entry Hin. split.
  - unfold getBacklogById. run. by rewrite (filter_key_unique bl_id).
  - destruct (Hvillage entry Hin) as (village & Hvin & Hvid & Hvd).
    exists (filter (λ b, bl_district_id b = bl_district_id entry) (backlogsTable st)), village.
    split; [reflexivity|]. split; [|split].
    + apply list_elem_of_filter. split; [reflexivity|assumption].
    + unfold getVillageById. run. rewrite <- Hvid.
      by rewrite (filter_key_unique v_id).
    + exact Hvd.
Qed.

Lemma backlog_entries_are_sound_witness :
  reachable one_entry_2025
  ∧ getBacklogById 1 one_entry_2025
    = (Ok (Some (backlog_values (backlog_sample.entry NO_HOUSE 2025 6) 1 100 1)),
       one_entry_2025).
Proof.
  assert (reachable one_entry_2025) as H by (repeat constructor).
  split; [exact H|].
  destruct (backlog_entries_are_sound _ H) as [_ Hlookup].
  refine (proj1 (Hlookup (backlog_values (backlog_sample.entry NO_HOUSE 2025 6) 1 100 1) _)).
  left.
Defined.






(** ** The router *)

Lemma protectedProcedure_Ok {A} ctx (next : Z → handler A) st a st' :
  protectedProcedure ctx next st = (Ok a, st') ↔
  ∃ user, userId ctx = Some user ∧ user ≠ 0 ∧ next user st = (Ok a, st').
Proof.
  unfold protectedProcedure. destruct (userId ctx) as [u|].
  - destruct (truthy u) eqn:Hu.
    + apply truthy_number_true in Hu. split; [eauto|].
      by intros (user & [= <-] & _ & Hnext).
    + split; [discriminate|]. intros (user & [= <-] & Hne & _).
      apply truthy_number_true in Hne. congruence.
  - split; [discriminate|]. by intros (user & [=] & _).
Qed.

Lemma js_or_truthy {A} `{Truthy A} (x : nullable_optional A) (a : A) :
  js_or x None = Some a → x = value a ∧ truthy a = true.
Proof.
  destruct x as [| |b]; simpl; try discriminate.
  destruct (truthy b) eqn:Hb; [|discriminate]. by intros [= <-].
Qed.

(** X16. A record that the router's [create] procedure returns was created for
    an authenticated caller, whose non-zero id it carries as its creator, from
    an input that passed the schema: its NIK is 16 digits, its name and
    address are not empty, it has at least one family member, its condition
    score is absent or between 1 and 100, and its phone and notes are absent
    or not empty. It is the record [createHousingRecord] returns for that
    caller. *)
Theorem router_create_stores_well_formed_record ctx input now st record st' :
  housingRecords.create ctx input now st = (Ok record, st') →
  well_formed_record record
  ∧ ∃ user, userId ctx = Some user ∧ user ≠ 0
            ∧ hr_created_by record = user
            ∧ createHousingRecord input user now st = (Ok record, st').
Proof.
  unfold housingRecords.create. intros Hrun.
  apply protectedProcedure_Ok in Hrun. destruct Hrun as (user & Huser & Hne & Hrun).
  unfold parsed in Hrun.
  destruct (createHousingRecordInputSchema input) eqn:Hschema; [|discriminate].
  pose proof Hrun as Hcreate.
  apply createHousingRecord_Ok in Hrun. destruct Hrun as (_ & _ & _ & -> & _).
  unfold createHousingRecordInputSchema in Hschema.
  repeat (apply andb_prop in Hschema; destruct Hschema as [Hschema ?]).
  split; [|exists user; auto].
  unfold well_formed_record. simpl. split; [assumption|].
  assert (Hmin : ∀ s, min_1 s = true → s ≠ "").
  { intros s Hs ->. discriminate. }
  split; [by apply Hmin|]. split; [by apply Hmin|]. split; [lia|].
  split; [|split].
  - intros score Hscore. apply js_or_truthy in Hscore. destruct Hscore as [Hvalue Htruthy].
    apply truthy_number_true in Htruthy.
    match goal with
    | Hs : score_schema _ = true |- _ => rewrite Hvalue in Hs; simpl in Hs
    end.
    lia.
  - intros Hphone. apply js_or_truthy in Hphone. destruct Hphone as [_ Hphone].
    discriminate.
  - intros Hnotes. apply js_or_truthy in Hnotes. destruct Hnotes as [_ Hnotes].
    discriminate.
Qed.

Lemma router_create_stores_well_formed_record_witness :
  ∃ record st',
    housingRecords.create admin sample.falsyInput 3000 sample.one_record = (Ok record, st')
    ∧ hr_house_condition_score record = None
    ∧ well_formed_record record.
Proof.
  eexists _, _. split; [vm_compute; reflexivity|]. split; [reflexivity|].
  refine (proj1 (router_create_stores_well_formed_record
                   admin sample.falsyInput 3000 sample.one_record _ _ _)).
  vm_compute. reflexivity.
Defined.

(** X17. A request without an [authorization] header that starts with 'Bearer '
    has no user: the four mutations of the housing-record router answer
    UNAUTHORIZED, whatever their input, before the input is validated and
    without touching the database. *)
Theorem requests_without_bearer_are_unauthorized
    req createInput updateInput verifyInput id now st :
  (∀ header, authorization req = Some header → String.prefix "Bearer " header = false) →
  userId (createContext req) = None
  ∧ housingRecords.create (createContext req) createInput now st = (Err UNAUTHORIZED, st)
  ∧ housingRecords.update (createContext req) updateInput now st = (Err UNAUTHORIZED, st)
  ∧ housingRecords.verify (createContext req) verifyInput now st = (Err UNAUTHORIZED, st)
  ∧ housingRecords.delete (createContext req) id st = (Err UNAUTHORIZED, st).
Proof.
  intros Hheader.
  assert (Hnone : userId (createContext req) = None).
  { unfold createContext. destruct (authorization req) as [header|]; [|reflexivity].
    by rewrite (Hheader header eq_refl). }
  split; [exact Hnone|].
  unfold housingRecords.create, housingRecords.update, housingRecords.verify,
    housingRecords.delete, protectedProcedure.
  rewrite Hnone. repeat split.
Qed.

Lemma requests_without_bearer_are_unauthorized_witness :
  housingRecords.delete
    (createContext {| authorization := Some "Basic dXNlcjpwdw=="; ip := None;
                      remoteAddress := Some "127.0.0.1" |})
    1 sample.one_record
  = (Err UNAUTHORIZED, sample.one_record).
Proof.
  refine (proj2 (proj2 (proj2 (proj2
    (requests_without_bearer_are_unauthorized
       {| authorization := Some "Basic dXNlcjpwdw=="; ip := None;
          remoteAddress := Some "127.0.0.1" |}
       sample.testInput (sample.set_district 1 1) reverify_rejected 1 0
       sample.one_record _))))).
  intros header [= <-]. reflexivity.
Defined.

(** X18. Every request whose [authorization] header starts with 'Bearer ' is
    given user 1 with the role PUPR_ADMIN, whatever follows the prefix: the
    housing-record mutations then run the handlers for user 1 once the input
    has passed its schema, and the request's [ip] is used as the address when
    it is not empty, else the connection's remote address. *)
Theorem bearer_requests_act_as_user_1 req header :
  authorization req = Some header →
  String.prefix "Bearer " header = true →
  userId (createContext req) = Some 1
  ∧ userRole (createContext req) = Some "PUPR_ADMIN"
  ∧ ipAddress (createContext req)
    = match ip req with
      | Some address => if String.eqb address "" then remoteAddress req else Some address
      | None => remoteAddress req
      end
  ∧ (∀ input now st,
       createHousingRecordInputSchema input = true →
       housingRecords.create (createContext req) input now st
       = createHousingRecord input 1 now st)
  ∧ (∀ input now st,
       updateHousingRecordInputSchema input = true →
       housingRecords.update (createContext req) input now st
       = updateHousingRecord input 1 now st)
  ∧ (∀ input now st,
       housingRecords.verify (createContext req) input now st
       = verifyHousingRecord input 1 now st)
  ∧ (∀ id st,
       housingRecords.delete (createContext req) id st = deleteHousingRecord id 1 st).
Proof.
  intros Hauth Hprefix.
  assert (Hctx : createContext req
                 = {| userId := Some 1; userRole := Some "PUPR_ADMIN";
                      ipAddress := js_or (stored (ip req)) (remoteAddress req) |}).
  { unfold createContext. by rewrite Hauth, Hprefix. }
  rewrite Hctx. simpl. split; [reflexivity|]. split; [reflexivity|]. split.
  { destruct (ip req) as [address|]; simpl; [|reflexivity].
    unfold truthy, truthy_string. by destruct (String.eqb address ""). }
  unfold housingRecords.create, housingRecords.update, housingRecords.verify,
    housingRecords.delete, protectedProcedure, parsed. simpl.
  repeat split; intros; try reflexivity.
  - by rewrite H.
  - by rewrite H.
Qed.

Lemma bearer_requests_act_as_user_1_witness :
  userId (createContext {| authorization := Some "Bearer not-a-token"; ip := Some "";
                           remoteAddress := Some "10.0.0.7" |}) = Some 1
  ∧ ipAddress (createContext {| authorization := Some "Bearer not-a-token"; ip := Some "";
                                remoteAddress := Some "10.0.0.7" |}) = Some "10.0.0.7".
Proof.
  destruct (bearer_requests_act_as_user_1
              {| authorization := Some "Bearer not-a-token"; ip := Some "";
                 remoteAddress := Some "10.0.0.7" |}
              "Bearer not-a-token" eq_refl eq_refl) as (Huser & _ & Haddress & _).
  split; [exact Huser|exact Haddress].
Defined.

(** ** The audit log *)

Lemma newest_first_transitive : Transitive newest_first.
Proof. unfold Transitive, newest_first. intros. lia. Qed.

Lemma newest_first_total : Total newest_first.
Proof. unfold Total, newest_first. intros. lia. Qed.

Lemma order_by_created_at_desc_spec rows :
  order_by_created_at_desc rows ≡ₚ rows
  ∧ StronglySorted newest_first (order_by_created_at_desc rows).
Proof.
  unfold order_by_created_at_desc. split.
  - apply merge_sort_Permutation.
  - apply (@StronglySorted_merge_sort _ _ _ newest_first_transitive newest_first_total).
Qed.

Lemma StronglySorted_lookup {A} (R : relation A) (l : list A) (i j : nat) (x y : A) :
  StronglySorted R l → (i < j)%nat → l !! i = Some x → l !! j = Some y → R x y.
Proof.
  intros Hsorted. revert i j. induction Hsorted as [|a l Hl IH Hall]; intros i j Hij Hi Hj.
  - by rewrite lookup_nil in Hi.
  - destruct j as [|j]; [lia|]. simpl in Hj. destruct i as [|i]; simpl in Hi.
    + injection Hi as <-. rewrite Forall_forall in Hall. apply Hall.
      by eapply list_elem_of_lookup_2.
    + apply (IH i j); [lia|assumption..].
Qed.

(** X19. [getAuditLogs] returns the entries of the log that satisfy every filter
    given, each as often as it is stored and no other: the user's entries when
    a user id is given, also when that id is 0, and the entries created from
    [dateFrom] on and up to [dateTo] when these are given. They come newest
    first: an entry never precedes one created later. The log is not
    changed. *)
Theorem getAuditLogs_selects_and_orders userId dateFrom dateTo st :
  ∃ entries,
    getAuditLogs userId dateFrom dateTo st = (Ok entries, st)
    ∧ (∃ selected,
         entries ≡ₚ selected
         ∧ selected `sublist_of` auditLogsTable st
         ∧ ∀ e, e ∈ auditLogsTable st →
                (e ∈ selected ↔
                 (∀ user, userId = Some user → al_user_id e = user)
                 ∧ (∀ from, dateFrom = Some from → from ≤ al_created_at e)
                 ∧ (∀ to, dateTo = Some to → al_created_at e ≤ to)))
    ∧ ∀ i j e1 e2, (i < j)%nat → entries !! i = Some e1 → entries !! j = Some e2 →
                   al_created_at e2 ≤ al_created_at e1.
Proof.
  unfold getAuditLogs. run. eexists. split; [reflexivity|].
  destruct (order_by_created_at_desc_spec
              (filter (audit_conditions userId dateFrom dateTo) (auditLogsTable st)))
    as [Hperm Hsorted].
  split.
  - exists (filter (audit_conditions userId dateFrom dateTo) (auditLogsTable st)).
    split; [exact Hperm|]. split; [apply sublist_filter|].
    intros e Hin. rewrite list_elem_of_filter. unfold audit_conditions.
    destruct userId, dateFrom, dateTo; simpl;
      intuition (try congruence; try match goal with
                                     | H : ∀ x, Some ?a = Some x → _ |- _ =>
                                         specialize (H a eq_refl)
                                     end; auto).
    all: match goal with H : Some _ = Some _ |- _ => injection H as <- end; assumption.
  - intros i j e1 e2 Hij Hi Hj.
    apply (StronglySorted_lookup newest_first _ i j e1 e2 Hsorted Hij Hi Hj).
Qed.

(** X20. [logAuditAction] always succeeds and appends its entry to the log. The
    entry's resource id is the one given unless that is absent or 0, in which
    case it is null; so [getAuditLogsByResource], asked for the entry's
    resource type and an id, returns the entry exactly when that id is the
    one given and is not 0. *)
Theorem logged_entry_is_found_by_resource
    userId action resourceType resourceId details ipAddress now st :
  ∃ entry st',
    logAuditAction userId action resourceType resourceId details ipAddress now st
    = (Ok entry, st')
    ∧ auditLogsTable st' = auditLogsTable st ++ [entry]
    ∧ al_resource_id entry
      = match resourceId with
        | Some id => if decide (id = 0) then None else Some id
        | None => None
        end
    ∧ ∀ id, ∃ entries,
        getAuditLogsByResource resourceType id st' = (Ok entries, st')
        ∧ (entry ∈ entries ↔ resourceId = Some id ∧ id ≠ 0).
Proof.
  unfold logAuditAction, insert_auditLog. eexists _, _. split; [reflexivity|].
  simpl. split; [reflexivity|].
  assert (Hid : js_or (stored resourceId) None
                = match resourceId with
                  | Some id => if decide (id = 0) then None else Some id
                  | None => None
                  end).
  { destruct resourceId as [id|]; simpl; [|reflexivity].
    unfold truthy, truthy_number. destruct (decide (id = 0)) as [->|Hne]; [reflexivity|].
    apply Z.eqb_neq in Hne. by rewrite Hne. }
  split; [exact Hid|]. intros id. unfold getAuditLogsByResource. run.
  eexists. split; [reflexivity|].
  destruct (order_by_created_at_desc_spec
              (filter (λ e, al_resource_type e = resourceType ∧ al_resource_id e = Some id)
                      (auditLogsTable st ++
                       [{| al_id := audit_logs_id_seq st;
                           al_user_id := userId;
                           al_action := action;
                           al_resource_type := resourceType;
                           al_resource_id := js_or (stored resourceId) None;
                           al_details := js_or (stored details) None;
                           al_ip_address := js_or (stored ipAddress) None;
                           al_created_at := now |}]))) as [Hperm _].
  simpl in Hperm. rewrite Hperm, list_elem_of_filter. simpl. rewrite Hid.
  split.
  - intros [[_ Hres] _]. destruct resourceId as [id'|]; [|discriminate].
    destruct (decide (id' = 0)); [discriminate|]. injection Hres as ->. auto.
  - intros [-> Hne]. rewrite decide_False by exact Hne.
    split; [auto|]. apply elem_of_app. right. left.
Qed.



Lemma length_filter_disjoint {R} (P Q W : R → Prop)
    `{∀ r, Decision (P r)} `{∀ r, Decision (Q r)} `{∀ r, Decision (W r)} (rows : list R) :
  (∀ r, P r → Q r → False) →
  (length (filter (λ r, P r ∧ W r) rows) + length (filter (λ r, Q r ∧ W r) rows)
   ≤ length (filter W rows))%nat.
Proof.
  intros Hdisjoint. induction rows as [|r rows IH]; [reflexivity|].
  rewrite !filter_cons.
  destruct (decide (P r ∧ W r)) as [[HP HW]|HnP], (decide (Q r ∧ W r)) as [[HQ HW']|HnQ],
    (decide (W r)) as [HW''|HnW]; simpl; try lia; try tauto.
  destruct (Hdisjoint r HP HQ).
Qed.

Lemma length_filter_weaker {R} (P Q : R → Prop)
    `{∀ r, Decision (P r)} `{∀ r, Decision (Q r)} (rows : list R) :
  (∀ r, P r → Q r) → (length (filter P rows) ≤ length (filter Q rows))%nat.
Proof.
  intros Himpl. induction rows as [|r rows IH]; [reflexivity|].
  rewrite !filter_cons.
  destruct (decide (P r)) as [HP|HnP], (decide (Q r)) as [HQ|HnQ]; simpl; try lia.
  destruct (HnQ (Himpl r HP)).
Qed.

(** X22. The figures of a security report fit together, for every log of fewer
    than 2^31 entries and whatever the dates of its entries: none is
    negative, the logins and the exports together are no more than the recent
    changes, which count every entry of the last 7 days, and 10 times the
    suspicious activities are no more than the recent changes either. *)
Theorem getSecurityReport_figures_fit now st :
  Z.of_nat (length (auditLogsTable st)) < 2 ^ 31 →
  ∃ report,
    getSecurityReport now st = (Ok report, st)
    ∧ 0 ≤ suspicious_activities report
    ∧ 0 ≤ failed_logins report
    ∧ 0 ≤ data_exports report
    ∧ failed_logins report + data_exports report ≤ recent_changes report
    ∧ 10 * suspicious_activities report ≤ recent_changes report
    ∧ recent_changes report ≤ Z.of_nat (length (auditLogsTable st)).
Proof.
  intros Hsize. unfold getSecurityReport. run. eexists. split; [reflexivity|]. simpl.
  pose proof (length_filter_disjoint
                (λ e, al_action e = LOGIN) (λ e, al_action e = EXPORT)
                (λ e, days_ago now 7 ≤ al_created_at e) (auditLogsTable st)) as Hsum.
  pose proof (length_filter_weaker
                (λ e, days_ago now 1 ≤ al_created_at e)
                (λ e, days_ago now 7 ≤ al_created_at e) (auditLogsTable st)) as Hday.
  pose proof (length_filter (λ e, days_ago now 7 ≤ al_created_at e) (auditLogsTable st))
    as Hweek.
  pose proof (length_filter (λ e, days_ago now 1 ≤ al_created_at e) (auditLogsTable st))
    as Hall.
  rewrite Math_floor_times_0_1_spec by lia.
  assert (Hdisjoint : ∀ e, al_action e = LOGIN → al_action e = EXPORT → False)
    by (intros e ->; discriminate).
  specialize (Hsum Hdisjoint).
  assert (Hwindow : ∀ e, days_ago now 1 ≤ al_created_at e → days_ago now 7 ≤ al_created_at e)
    by (unfold days_ago; intros; lia).
  specialize (Hday Hwindow).
  set (day := Z.of_nat (length (filter (λ e, days_ago now 1 ≤ al_created_at e)
                                       (auditLogsTable st)))) in *.
  assert (0 ≤ day / 10 ∧ 10 * (day / 10) ≤ day).
  { split; [apply Z.div_pos; lia|apply Z.mul_div_le; lia]. }
  cbv beta in Hsum. repeat split; lia.
Qed.

Lemma getSecurityReport_figures_fit_witness :
  ∃ report,
    getSecurityReport 1000 audit_sample.seven_entries
    = (Ok report, audit_sample.seven_entries)
    ∧ failed_logins report + data_exports report ≤ recent_changes report.
Proof.
  destruct (getSecurityReport_figures_fit 1000 audit_sample.seven_entries)
    as (report & Hrun & _ & _ & _ & Hsum & _).
  - vm_compute. reflexivity.
  - exists report. split; [exact Hrun|exact Hsum].
Defined.

(** ** The map *)




(** ** The dashboard *)

Lemma Number_sum_case {R} (P : R → Prop) `{∀ r, Decision (P r)} (rows : list R) :
  Number (sum_case P rows) = Z.of_nat (length (filter P rows)).
Proof. destruct rows; reflexivity. Qed.

Lemma length_filter_partition {R} (P Q : R → Prop)
    `{∀ r, Decision (P r)} `{∀ r, Decision (Q r)} (rows : list R) :
  (∀ r, P r ↔ ¬ Q r) →
  (length (filter P rows) + length (filter Q rows) = length rows)%nat.
Proof.
  intros Hsplit. induction rows as [|r rows IH]; [reflexivity|].
  rewrite !filter_cons. specialize (Hsplit r).
  destruct (decide (P r)), (decide (Q r)); simpl; try lia; tauto.
Qed.

Lemma length_filter_snoc {R} (P : R → Prop) `{∀ r, Decision (P r)} (rows : list R) (r : R) :
  length (filter P (rows ++ [r]))
  = (length (filter P rows) + (if decide (P r) then 1 else 0))%nat.
Proof.
  rewrite filter_app, length_app, filter_cons. by destruct (decide (P r)).
Qed.

(** X25. [getDashboardStats] counts the stored records, districts and villages;
    the two status counts add up to the total, the pending verifications are
    no more than the total, and every figure is 0 on empty tables. The
    database is not changed. *)
Theorem getDashboardStats_figures st :
  ∃ stats,
    getDashboardStats st = (Ok stats, st)
    ∧ total_houses stats = Z.of_nat (length (housingRecordsTable st))
    ∧ districts_count stats = Z.of_nat (length (districtsTable st))
    ∧ villages_count stats = Z.of_nat (length (villagesTable st))
    ∧ rtlh_count stats + rlh_count stats = total_houses stats
    ∧ 0 ≤ rtlh_count stats
    ∧ 0 ≤ rlh_count stats
    ∧ 0 ≤ pending_verification stats ≤ total_houses stats
    ∧ (housingRecordsTable st = [] →
       rtlh_count stats = 0 ∧ rlh_count stats = 0 ∧ pending_verification stats = 0).
Proof.
  unfold getDashboardStats. run. eexists. split; [reflexivity|]. simpl.
  rewrite !Number_sum_case. unfold count_id.
  pose proof (length_filter_partition
                (λ r, hr_housing_status r = RTLH) (λ r, hr_housing_status r = RLH)
                (housingRecordsTable st)) as Hsplit.
  pose proof (length_filter (λ r, hr_verification_status r = PENDING)
                (housingRecordsTable st)) as Hpending.
  assert (Hstatus : ∀ r, hr_housing_status r = RTLH ↔ ¬ hr_housing_status r = RLH).
  { intros r. destruct (hr_housing_status r); split; congruence. }
  specialize (Hsplit Hstatus). cbv beta in Hsplit.
  repeat (split; [first [reflexivity | lia]|]).
  by intros ->.
Qed.

(** X26. The three figures of [getVerificationStats] add up to the number of
    stored records, each record being counted under its verification status;
    the pending figure is the one the dashboard shows, and all three are 0 on
    an empty table. *)
Theorem getVerificationStats_figures st :
  ∃ stats dashboard,
    getVerificationStats st = (Ok stats, st)
    ∧ getDashboardStats st = (Ok dashboard, st)
    ∧ vs_pending stats + vs_verified stats + vs_rejected stats = total_houses dashboard
    ∧ vs_pending stats = pending_verification dashboard
    ∧ 0 ≤ vs_pending stats ∧ 0 ≤ vs_verified stats ∧ 0 ≤ vs_rejected stats
    ∧ (∀ status,
         Z.of_nat (length (filter (λ r, hr_verification_status r = status)
                                  (housingRecordsTable st)))
         = match status with
           | PENDING => vs_pending stats
           | VERIFIED => vs_verified stats
           | REJECTED => vs_rejected stats
           end).
Proof.
  unfold getVerificationStats, getDashboardStats. run.
  eexists _, _. split; [reflexivity|]. split; [reflexivity|]. simpl.
  rewrite !Number_sum_case. unfold count_id.
  assert (Hsum : (length (filter (λ r, hr_verification_status r = PENDING)
                                 (housingRecordsTable st))
                  + length (filter (λ r, hr_verification_status r = VERIFIED)
                                   (housingRecordsTable st))
                  + length (filter (λ r, hr_verification_status r = REJECTED)
                                   (housingRecordsTable st))
                  = length (housingRecordsTable st))%nat).
  { induction (housingRecordsTable st) as [|r rows IH]; [reflexivity|].
    rewrite !filter_cons.
    destruct (hr_verification_status r);
      repeat match goal with
             | |- context [decide (?a = ?b)] => destruct (decide (a = b)); try congruence
             end; simpl; lia. }
  repeat (split; [first [reflexivity | lia]|]).
  by intros [].
Qed.

(** X27. A record that [createHousingRecord] has stored is counted by the
    dashboard at once: the total and the pending verifications are each one
    more than before, and so is the count of the record's housing status,
    while the other status count, the districts and the villages are as
    before. *)
Theorem created_record_is_counted input createdBy now st record st' :
  createHousingRecord input createdBy now st = (Ok record, st') →
  ∃ before after,
    getDashboardStats st = (Ok before, st)
    ∧ getDashboardStats st' = (Ok after, st')
    ∧ total_houses after = total_houses before + 1
    ∧ pending_verification after = pending_verification before + 1
    ∧ match cr_housing_status input with
      | RTLH => rtlh_count after = rtlh_count before + 1
                ∧ rlh_count after = rlh_count before
      | RLH => rlh_count after = rlh_count before + 1
               ∧ rtlh_count after = rtlh_count before
      end
    ∧ districts_count after = districts_count before
    ∧ villages_count after = villages_count before.
Proof.
  intros Hrun. apply createHousingRecord_Ok in Hrun.
  destruct Hrun as (_ & _ & _ & -> & ->).
  unfold getDashboardStats. run. eexists _, _.
  split; [reflexivity|]. split; [reflexivity|]. simpl.
  rewrite !Number_sum_case, !length_filter_snoc. unfold count_id.
  rewrite length_app. simpl.
  destruct (cr_housing_status input);
    repeat match goal with
           | |- context [decide (?a = ?b)] => destruct (decide (a = b)); try congruence
           end; repeat split; lia.
Qed.

Lemma created_record_is_counted_witness :
  ∃ after,
    getDashboardStats sample.one_record = (Ok after, sample.one_record)
    ∧ total_houses after = 1
    ∧ rtlh_count after = 1
    ∧ pending_verification after = 1.
Proof.
  destruct (created_record_is_counted
              sample.testInput sample.testUser 1000 sample.empty_store
              (housing_values sample.testInput sample.testUser 1000 1) sample.one_record)
    as (before & after & Hbefore & Hafter & Htotal & Hpending & Hstatus & _).
  - vm_compute. reflexivity.
  - exists after. split; [exact Hafter|].
    injection Hbefore as <-. simpl in Hstatus. destruct Hstatus as [Hrtlh _].
    rewrite Htotal, Hpending, Hrtlh. repeat split.
Defined.

(** ** The monthly trends *)

Lemma monthly_row_spec results month :
  mt_month (monthly_row results month) = month
  ∧ ((∃ r, r ∈ results ∧ mt_month r = month
           ∧ mt_rtlh_created (monthly_row results month) = mt_rtlh_created r
           ∧ mt_rlh_created (monthly_row results month) = mt_rlh_created r
           ∧ mt_verified_count (monthly_row results month) = mt_verified_count r)
     ∨ ((∀ r, r ∈ results → mt_month r ≠ month)
        ∧ mt_rtlh_created (monthly_row results month) = 0
        ∧ mt_rlh_created (monthly_row results month) = 0
        ∧ mt_verified_count (monthly_row results month) = 0)).
Proof.
  unfold monthly_row.
  destruct (find _ results) as [existingData|] eqn:Efind; simpl; (split; [reflexivity|]).
  - left. apply find_some in Efind. destruct Efind as [Hin Hmonth].
    apply bool_decide_eq_true in Hmonth. exists existingData.
    rewrite list_elem_of_In. auto.
  - right. split; [|auto]. intros r Hin Hmonth.
    apply list_elem_of_In in Hin.
    pose proof (find_none _ _ Efind r Hin) as Hnone. simpl in Hnone.
    apply bool_decide_eq_false in Hnone. contradiction.
Qed.

(** X28. The loop of [getMonthlyTrends] always produces twelve rows, for the
    months 1 to 12 in this order; the row of a month carries the figures of a
    row of the query for that month when there is one, and zeros when there
    is none. *)
Theorem monthlyData_fills_the_year results :
  mt_month <$> monthlyData results = [1; 2; 3; 4; 5; 6; 7; 8; 9; 10; 11; 12]
  ∧ ∀ row, row ∈ monthlyData results →
      (∃ r, r ∈ results ∧ mt_month r = mt_month row
            ∧ mt_rtlh_created row = mt_rtlh_created r
            ∧ mt_rlh_created row = mt_rlh_created r
            ∧ mt_verified_count row = mt_verified_count r)
      ∨ ((∀ r, r ∈ results → mt_month r ≠ mt_month row)
         ∧ mt_rtlh_created row = 0
         ∧ mt_rlh_created row = 0
         ∧ mt_verified_count row = 0).
Proof.
  unfold monthlyData. split.
  - rewrite <- list_fmap_compose. rewrite <- (list_fmap_id [1; 2; 3; 4; 5; 6; 7; 8; 9; 10; 11; 12]) at 2.
    apply list_fmap_ext. intros _ month _. apply monthly_row_spec.
  - intros row Hin. apply list_elem_of_fmap in Hin. destruct Hin as (month & -> & _).
    destruct (monthly_row_spec results month) as [Hmonth Hrow]. by rewrite Hmonth.
Qed.

(** X29. When the rows of the query have distinct months between 1 and 12, as
    the grouping by month makes them, none is lost by the loop of
    [getMonthlyTrends]: each is among the twelve rows, at the place of its
    month. *)
Theorem monthlyData_keeps_the_rows results r :
  NoDup (mt_month <$> results) →
  r ∈ results →
  1 ≤ mt_month r ≤ 12 →
  monthlyData results !! Z.to_nat (mt_month r - 1) = Some r.
Proof.
  intros Hnodup Hin Hmonth. unfold monthlyData.
  assert (Hrow : monthly_row results (mt_month r) = r).
  { destruct (monthly_row_spec results (mt_month r)) as [Hm [Hfound|[Hnone _]]].
    - destruct Hfound as (r' & Hin' & Hmonth' & Hrtlh & Hrlh & Hverified).
      assert (r' = r) as -> by (eapply (NoDup_fmap_eq mt_month); eauto).
      destruct r, (monthly_row results _). simpl in *. congruence.
    - destruct (Hnone r Hin eq_refl). }
  rewrite list_lookup_fmap.
  assert (Hlookup : [1; 2; 3; 4; 5; 6; 7; 8; 9; 10; 11; 12] !! Z.to_nat (mt_month r - 1)
                    = Some (mt_month r)).
  { assert (Hcases : mt_month r = 1 ∨ mt_month r = 2 ∨ mt_month r = 3 ∨ mt_month r = 4
                     ∨ mt_month r = 5 ∨ mt_month r = 6 ∨ mt_month r = 7 ∨ mt_month r = 8
                     ∨ mt_month r = 9 ∨ mt_month r = 10 ∨ mt_month r = 11
                     ∨ mt_month r = 12) by lia.
    repeat (destruct Hcases as [->|Hcases]; [reflexivity|]). by rewrite Hcases. }
  rewrite Hlookup. simpl. by rewrite Hrow.
Qed.

Lemma monthlyData_keeps_the_rows_witness :
  monthlyData [{| mt_month := 3; mt_rtlh_created := 2; mt_rlh_created := 1;
                  mt_verified_count := 1 |};
               {| mt_month := 11; mt_rtlh_created := 0; mt_rlh_created := 4;
                  mt_verified_count := 3 |}] !! 10%nat
  = Some {| mt_month := 11; mt_rtlh_created := 0; mt_rlh_created := 4;
            mt_verified_count := 3 |}.
Proof.
  apply (monthlyData_keeps_the_rows
           [{| mt_month := 3; mt_rtlh_created := 2; mt_rlh_created := 1;
               mt_verified_count := 1 |};
            {| mt_month := 11; mt_rtlh_created := 0; mt_rlh_created := 4;
               mt_verified_count := 3 |}]
           {| mt_month := 11; mt_rtlh_created := 0; mt_rlh_created := 4;
              mt_verified_count := 3 |}).
  - apply (bool_decide_unpack _). vm_compute. exact I.
  - right. left.
  - simpl. lia.
Defined.

(** ** Listings and look-ups *)

Lemma head_filter_key {R} (key : R → Z) (rows : list R) (row : R) :
  NoDup (key <$> rows) →
  row ∈ rows ↔ head (filter (λ r, key r = key row) rows) = Some row.
Proof.
  intros Hnodup. split.
  - intros Hin. by rewrite (filter_key_unique key rows row Hnodup Hin).
  - destruct (filter _ rows) as [|first rest] eqn:E; [discriminate|].
    intros [= ->]. by destruct (filter_head_elem (λ r, key r = key row) _ _ _ E).
Qed.

(** X30. At every reachable state the listings [getHousingRecords],
    [getBacklogs] and [getVillages] return the stored rows, no two of them
    under the same id, and a row is listed exactly when the look-up by id,
    [getHousingRecordById], [getBacklogById] or [getVillageById], returns it
    for its id. *)
Theorem listings_agree_with_lookups st :
  reachable st →
  ∃ records backlogs villages,
    getHousingRecords st = (Ok records, st)
    ∧ getBacklogs st = (Ok backlogs, st)
    ∧ getVillages st = (Ok villages, st)
    ∧ NoDup (hr_id <$> records)
    ∧ NoDup (bl_id <$> backlogs)
    ∧ NoDup (v_id <$> villages)
    ∧ (∀ record, record ∈ records ↔
                 getHousingRecordById (hr_id record) st = (Ok (Some record), st))
    ∧ (∀ entry, entry ∈ backlogs ↔
                getBacklogById (bl_id entry) st = (Ok (Some entry), st))
    ∧ (∀ village, village ∈ villages ↔
                  getVillageById (v_id village) st = (Ok (Some village), st)).
Proof.
  intros Hst.
  destruct (reachable_id_unique st Hst) as [Hrecords _].
  destruct (reachable_backlogs_sound st Hst) as (_ & Hbacklogs & _).
  destruct (reachable_reference_data_sound st Hst) as (_ & _ & _ & Hvillages & _).
  exists (housingRecordsTable st), (backlogsTable st), (villagesTable st).
  split; [unfold getHousingRecords; run; by rewrite fmap_with_numbers|].
  split; [reflexivity|]. split; [reflexivity|].
  split; [exact Hrecords|]. split; [exact Hbacklogs|]. split; [exact Hvillages|].
  split; [|split].
  - intros record. rewrite getHousingRecordById_filter.
    rewrite (head_filter_key hr_id _ record Hrecords). split; congruence.
  - intros entry. unfold getBacklogById. run.
    rewrite (head_filter_key bl_id _ entry Hbacklogs). split; congruence.
  - intros village. unfold getVillageById. run.
    rewrite (head_filter_key v_id _ village Hvillages). split; congruence.
Qed.

Lemma listings_agree_with_lookups_witness :
  ∃ records,
    getHousingRecords sample.verified_record = (Ok records, sample.verified_record)
    ∧ NoDup (hr_id <$> records).
Proof.
  destruct (listings_agree_with_lookups sample.verified_record)
    as (records & _ & _ & Hrun & _ & _ & Hnodup & _).
  - repeat constructor.
  - exists records. split; [exact Hrun|exact Hnodup].
Defined.
